(** * Direct messaging in the campus marketplace front end

    A shallow embedding of the conversation resolver of
    [components/ItemDetail.tsx] ([handleMessageSeller]) and of the message
    stream of the [Messages] component ([fetchConversations],
    [fetchMessages], the INSERT subscription and [handleSendMessage]),
    together with the properties the specification states about them.

    The hosted record store is an external collaborator.  It is modelled by
    the two tables the client reads and writes and by the answers it gives:
    a query is evaluated on a table, an insert receives the identifier and
    the timestamp the server assigns, and either may be answered by an
    error instead. *)

From Stdlib Require Import List String Ascii ZArith NArith Bool Arith Lia.
From Stdlib Require Import Sorted Permutation.
Import ListNotations.

Local Open Scope bool_scope.

(** ** JavaScript values *)

(** Identifiers are uuid strings; the code only compares them with [===]. *)
Definition uuid := string.
Bind Scope string_scope with uuid.

(** [created_at] is a [timestamp with time zone]; the store compares it as a
    point in time, here a number of microseconds. *)
Definition timestamp := Z.
Bind Scope Z_scope with timestamp.

(** Message text is a JavaScript string: a sequence of UTF-16 code units. *)
Definition jsstring := list N.

Definition utf16 (s : string) : jsstring :=
  map N_of_ascii (list_ascii_of_string s).

Module JS.

(** White space and line terminators of ECMAScript, the code units that
    [String.prototype.trim] strips: TAB, LF, VT, FF, CR, SP, NBSP,
    U+1680, U+2000..U+200A, LS, PS, U+202F, U+205F, U+3000 and the BOM. *)
Definition isWhiteSpace (c : N) : bool :=
  ((9 <=? c) && (c <=? 13))%N
  || (c =? 32)%N || (c =? 160)%N || (c =? 5760)%N
  || ((8192 <=? c) && (c <=? 8202))%N
  || (c =? 8232)%N || (c =? 8233)%N || (c =? 8239)%N
  || (c =? 8287)%N || (c =? 12288)%N || (c =? 65279)%N.

Fixpoint trimStart (s : jsstring) : jsstring :=
  match s with
  | [] => []
  | c :: rest => if isWhiteSpace c then trimStart rest else s
  end.

Definition trimEnd (s : jsstring) : jsstring := rev (trimStart (rev s)).

Definition trim (s : jsstring) : jsstring := trimEnd (trimStart s).

(** Truthiness of a string: only the empty string is falsy. *)
Definition truthy (s : jsstring) : bool :=
  match s with [] => false | _ :: _ => true end.

(** [session?.user?.id] is [None] when the session, its user or the id is
    missing; a present id is truthy unless it is the empty string. *)
Definition truthy_id (o : option uuid) : bool :=
  match o with
  | Some s => negb (s =? "")%string
  | None => false
  end.

(** [a || b] on strings. *)
Definition or_else (a b : string) : string :=
  if (a =? "")%string then b else a.

End JS.

(** ** The record store *)

(** A row of [public.conversations]. *)
Module ConvRow.
Record t := mk {
  id : uuid;
  created_at : timestamp;
  listing_id : option uuid;
  buyer_id : uuid;
  seller_id : uuid
}.
End ConvRow.

(** A row of [public.messages], which is also the [Message] the view holds
    (the view selects every column). *)
Module Message.
Record t := mk {
  id : uuid;
  created_at : timestamp;
  conversation_id : uuid;
  sender_id : uuid;
  text : jsstring
}.
End Message.

(** The error object a failed request carries. *)
Module PostgrestError.
Record t := mk {
  message : string;
  code : string
}.
End PostgrestError.

Module Store.

Record t := mk {
  conversations : list ConvRow.t;
  messages : list Message.t
}.

(** [.or(`buyer_id.eq.${uid},seller_id.eq.${uid}`)] *)
Definition is_participant (uid : uuid) (r : ConvRow.t) : bool :=
  (ConvRow.buyer_id r =? uid)%string || (ConvRow.seller_id r =? uid)%string.

(** [.eq('conversation_id', convId)] *)
Definition in_conversation (convId : uuid) (m : Message.t) : bool :=
  (Message.conversation_id m =? convId)%string.

(** [.order(column, { ascending })]: the rows are returned sorted on the
    column, here by insertion into an ordered result. *)
Fixpoint place {A : Type} (le : A -> A -> bool) (x : A) (l : list A) : list A :=
  match l with
  | [] => [x]
  | y :: rest => if le x y then x :: l else y :: place le x rest
  end.

Definition order {A : Type} (le : A -> A -> bool) (l : list A) : list A :=
  fold_right (place le) [] l.

Definition conv_newer_first (a b : ConvRow.t) : bool :=
  (ConvRow.created_at b <=? ConvRow.created_at a)%Z.

Definition msg_older_first (a b : Message.t) : bool :=
  (Message.created_at a <=? Message.created_at b)%Z.

(** An order the store picks by itself: the rows by ascending rank, rows of
    equal rank in table order. *)
Definition by_rank (rank : ConvRow.t -> Z) (a b : ConvRow.t) : bool :=
  (rank a <=? rank b)%Z.

(** The rank that puts rows in the order of the list [l]: the place of
    the row's id among the ids of [l]. *)
Fixpoint index_of (i : uuid) (ids : list uuid) : Z :=
  match ids with
  | [] => 0
  | j :: rest => if (j =? i)%string then 0 else 1 + index_of i rest
  end.

Definition as_listed (l : list ConvRow.t) : ConvRow.t -> Z :=
  fun r => index_of (ConvRow.id r) (map ConvRow.id l).

(** The query of [handleMessageSeller]: both roles and no [.order(...)], so
    the store is free to answer the rows in any order; [rank] is the order
    it takes for this answer. *)
Definition select_conversations (rank : ConvRow.t -> Z) (uid : uuid)
    (tbl : list ConvRow.t) : list ConvRow.t :=
  order (by_rank rank) (filter (is_participant uid) tbl).

(** The query of [fetchConversations]: both roles, newest first. *)
Definition select_conversations_newest_first (uid : uuid) (tbl : list ConvRow.t)
  : list ConvRow.t :=
  order conv_newer_first (filter (is_participant uid) tbl).

(** The query of [fetchMessages]: one conversation, oldest first. *)
Definition select_messages (convId : uuid) (tbl : list Message.t)
  : list Message.t :=
  order msg_older_first (filter (in_conversation convId) tbl).

(** What the server assigns to an inserted row. *)
Record assigned := mk_assigned {
  new_id : uuid;
  now : timestamp
}.

Definition insert_conversation (row : ConvRow.t) (db : t) : t :=
  mk (conversations db ++ [row]) (messages db).

Definition insert_message (row : Message.t) (db : t) : t :=
  mk (conversations db) (messages db ++ [row]).

End Store.

(** ** What a handler does besides changing state *)

Inductive Event :=
| SelectConversations (uid : uuid)
| InsertConversation (listing buyer seller : uuid)
| SelectMessages (convId : uuid)
| InsertMessage (convId sender : uuid) (text : jsstring)
| Subscribe (handle : nat) (convId : uuid)
| RemoveChannel (handle : nat)
| Callback (handle : nat) (payload : Message.t)
| OnMessage (convId : uuid)
| ConsoleError (label : string) (e : PostgrestError.t)
| Alert (text : string).

Definition is_store_write (e : Event) : bool :=
  match e with
  | InsertConversation _ _ _ | InsertMessage _ _ _ => true
  | _ => false
  end.

Definition is_error_report (e : Event) : bool :=
  match e with
  | ConsoleError _ _ | Alert _ => true
  | _ => false
  end.

(** A call surfaces an error when it reports one to the console or to the
    user.  (The handlers catch what they throw, so their promises never
    reject.) *)
Definition surfaces_error (trace : list Event) : Prop :=
  exists e, In e trace /\ is_error_report e = true.

(** ** ItemDetail: the conversation resolver *)

Module ItemDetail.

(** The fields of [item] the resolver reads. *)
Record Item := mkItem {
  item_id : uuid;
  item_seller_id : uuid
}.

(** How the store answers the two requests of one call: the error of
    either, the id and time it assigns to a created row, and the order in
    which it returns the rows of the unordered select. *)
Record Answers := mkAnswers {
  findError : option PostgrestError.t;
  createError : option PostgrestError.t;
  created_as : Store.assigned;
  row_rank : ConvRow.t -> Z
}.

(** Two orders a store may answer in: as the rows lie in the table, and
    oldest first. *)
Definition table_order : ConvRow.t -> Z := fun _ => 0%Z.


Record Result := mkResult {
  db : Store.t;
  isMessaging : bool;
  trace : list Event
}.

(** The predicate of [found?.find(...)]: either directional assignment. *)
Definition is_dm_between (me other : uuid) (conv : ConvRow.t) : bool :=
  ((ConvRow.buyer_id conv =? me)%string && (ConvRow.seller_id conv =? other)%string)
  || ((ConvRow.buyer_id conv =? other)%string && (ConvRow.seller_id conv =? me)%string).

(** The [catch] block. *)
Definition report (err : PostgrestError.t) : list Event :=
  [ ConsoleError "Error starting chat:" err;
    Alert ("Could not start chat: "
           ++ JS.or_else (PostgrestError.message err) "Unknown error") ].

Definition handleMessageSeller
    (ans : Answers) (session_user_id : option uuid) (item : Item)
    (isMessaging0 : bool) (db0 : Store.t) : Result :=
  match session_user_id with
  | None => mkResult db0 isMessaging0 []
  | Some me =>
    if negb (JS.truthy_id (Some me)) || isMessaging0
    then mkResult db0 isMessaging0 []
    else
      (* setIsMessaging(true) ... finally setIsMessaging(false) *)
      match findError ans with
      | Some err =>
          mkResult db0 false (SelectConversations me :: report err)
      | None =>
          let found :=
            Store.select_conversations (row_rank ans) me
                                       (Store.conversations db0) in
          match find (is_dm_between me (item_seller_id item)) found with
          | Some existingDM =>
              mkResult db0 false
                [ SelectConversations me; OnMessage (ConvRow.id existingDM) ]
          | None =>
              let request :=
                InsertConversation (item_id item) me (item_seller_id item) in
              match createError ans with
              | Some err =>
                  mkResult db0 false
                    (SelectConversations me :: request :: report err)
              | None =>
                  let created :=
                    ConvRow.mk (Store.new_id (created_as ans))
                               (Store.now (created_as ans))
                               (Some (item_id item))
                               me
                               (item_seller_id item) in
                  mkResult (Store.insert_conversation created db0) false
                    [ SelectConversations me; request;
                      OnMessage (ConvRow.id created) ]
              end
          end
      end
  end.

(** [resolve(currentUser, otherUser, contextListingId)] of the
    specification is this handler on the listing [contextListingId] of
    seller [otherUser] in the session of [currentUser]; the handle it
    returns is the one passed to [onMessage]. *)
Definition resolve (ans : Answers) (currentUser : option uuid)
    (otherUser contextListingId : uuid) (db0 : Store.t) : Result :=
  handleMessageSeller ans currentUser (mkItem contextListingId otherUser)
    false db0.

Definition handle_of (r : Result) : option uuid :=
  match find (fun e => match e with OnMessage _ => true | _ => false end)
             (trace r) with
  | Some (OnMessage h) => Some h
  | _ => None
  end.

(** The store answers both requests. *)
Definition answered (ans : Answers) : Prop :=
  findError ans = None /\ createError ans = None.

(** The conversation [c] is between the unordered pair of [x] and [y]. *)
Definition between (x y : uuid) (c : ConvRow.t) : Prop :=
  (ConvRow.buyer_id c = x /\ ConvRow.seller_id c = y)
  \/ (ConvRow.buyer_id c = y /\ ConvRow.seller_id c = x).

(** The store holds at most one conversation between [x] and [y]. *)
Definition at_most_one_between (x y : uuid) (tbl : list ConvRow.t) : Prop :=
  List.length (filter (is_dm_between x y) tbl) <= 1.

(** What a call by [me] towards [other] that returned the handle of [c]
    did to get it: it found [c] in the store and wrote nothing, or the
    store held no conversation of the pair and it inserted [c], with [me]
    as buyer, [other] as seller, on the listing it was pressed on, under
    the id the store assigned. *)
Definition found_or_created (ans : Answers) (me other listing : uuid)
    (db0 db1 : Store.t) (c : ConvRow.t) : Prop :=
  (In c (Store.conversations db0) /\ db1 = db0)
  \/ ((forall c', In c' (Store.conversations db0) -> ~ between me other c')
      /\ c = ConvRow.mk (Store.new_id (created_as ans))
                        (Store.now (created_as ans))
                        (Some listing) me other
      /\ db1 = Store.insert_conversation c db0).



End ItemDetail.

(** ** Messages: the conversation list and the message stream *)

(** The [Conversation] the view holds: the fetched row spread into a new
    object together with [other_user_id]. *)
Module Conversation.
Record t := mk {
  id : uuid;
  created_at : timestamp;
  listing_id : option uuid;
  buyer_id : uuid;
  seller_id : uuid;
  other_user_id : uuid
}.

(** [{ ...conv, other_user_id: otherId }] *)
Definition spread (conv : ConvRow.t) (otherId : uuid) : t :=
  mk (ConvRow.id conv) (ConvRow.created_at conv) (ConvRow.listing_id conv)
     (ConvRow.buyer_id conv) (ConvRow.seller_id conv) otherId.
End Conversation.

Module Messages.

(** A realtime channel [chat-<convId>] listening to INSERT on
    [public.messages] with the filter [conversation_id=eq.<convId>].
    [handle] stands for the identity of the JavaScript object. *)
Record Channel := mkChannel {
  handle : nat;
  filter_conversation_id : uuid
}.

Record State := mkState {
  initialConversationId : option uuid;
  conversations : list Conversation.t;
  selectedConversation : option Conversation.t;
  messages : list Message.t;
  inputValue : jsstring;
  loading : bool;
  table_missing : bool;
  channel : option Channel;
  mounted : bool
}.

Definition setConversations (v : list Conversation.t) (s : State) : State :=
  mkState (initialConversationId s) v (selectedConversation s) (messages s)
          (inputValue s) (loading s) (table_missing s) (channel s) (mounted s).

Definition setSelected (v : option Conversation.t) (s : State) : State :=
  mkState (initialConversationId s) (conversations s) v (messages s)
          (inputValue s) (loading s) (table_missing s) (channel s) (mounted s).

Definition setMessages (v : list Message.t) (s : State) : State :=
  mkState (initialConversationId s) (conversations s) (selectedConversation s) v
          (inputValue s) (loading s) (table_missing s) (channel s) (mounted s).

Definition setInputValue (v : jsstring) (s : State) : State :=
  mkState (initialConversationId s) (conversations s) (selectedConversation s)
          (messages s) v (loading s) (table_missing s) (channel s) (mounted s).

Definition setLoading (v : bool) (s : State) : State :=
  mkState (initialConversationId s) (conversations s) (selectedConversation s)
          (messages s) (inputValue s) v (table_missing s) (channel s) (mounted s).

Definition setTableMissing (v : bool) (s : State) : State :=
  mkState (initialConversationId s) (conversations s) (selectedConversation s)
          (messages s) (inputValue s) (loading s) v (channel s) (mounted s).

Definition setChannel (v : option Channel) (s : State) : State :=
  mkState (initialConversationId s) (conversations s) (selectedConversation s)
          (messages s) (inputValue s) (loading s) (table_missing s) v (mounted s).

Definition setInitialConversationId (v : option uuid) (s : State) : State :=
  mkState v (conversations s) (selectedConversation s)
          (messages s) (inputValue s) (loading s) (table_missing s) (channel s)
          (mounted s).

Definition setMounted (v : bool) (s : State) : State :=
  mkState (initialConversationId s) (conversations s) (selectedConversation s)
          (messages s) (inputValue s) (loading s) (table_missing s) (channel s) v.

(** *** fetchConversations *)

Definition otherId_of (userId : uuid) (conv : ConvRow.t) : uuid :=
  if (ConvRow.buyer_id conv =? userId)%string
  then ConvRow.seller_id conv
  else ConvRow.buyer_id conv.

(** The body of the [reduce]. *)
Definition group (userId : uuid) (acc : list Conversation.t) (conv : ConvRow.t)
  : list Conversation.t :=
  let otherId := otherId_of userId conv in
  if (otherId =? userId)%string then acc
  else
    match find (fun c => (Conversation.other_user_id c =? otherId)%string) acc with
    | Some _ => acc
    | None => acc ++ [Conversation.spread conv otherId]
    end.

Definition grouped (userId : uuid) (data : list ConvRow.t) : list Conversation.t :=
  fold_left (group userId) data [].

(** The request and what the handler does with its answer; [tbl] is the
    table the server evaluated the query on.  (The profile look-ups the
    handler then starts for the listed users only fill the name and
    avatar caches and are left out.) *)
Definition fetchConversations
    (error : option PostgrestError.t) (userId : uuid) (tbl : list ConvRow.t)
    (s : State) : State * list Event :=
  match error with
  | Some err =>
      let s1 :=
        if (PostgrestError.code err =? "42P01")%string
        then setTableMissing true s else s in
      (setLoading false s1,
       [ SelectConversations userId;
         ConsoleError "Error fetching conversations:" err ])
  | None =>
      let data := Store.select_conversations_newest_first userId tbl in
      (setLoading false (setConversations (grouped userId data) s),
       [ SelectConversations userId ])
  end.

(** *** fetchMessages *)

Definition fetchMessages
    (error : option PostgrestError.t) (convId : uuid) (tbl : list Message.t)
    (s : State) : State * list Event :=
  match error with
  | Some err =>
      (s, [ SelectMessages convId;
            ConsoleError "Error fetching messages:" err ])
  | None =>
      (setMessages (Store.select_messages convId tbl) s,
       [ SelectMessages convId ])
  end.

(** [load(conversationId)] of the specification: the sequence a successful
    [fetchMessages] puts on display. *)
Definition load (convId : uuid) (tbl : list Message.t) (s : State)
  : list Message.t :=
  messages (fst (fetchMessages None convId tbl s)).

(** *** The INSERT handler of the subscription *)

Definition has_id (i : uuid) (m : Message.t) : bool :=
  (Message.id m =? i)%string.

(** The updater passed to [setMessages] by the handler. *)
Definition onInsert (payload : Message.t) (prev : list Message.t)
  : list Message.t :=
  if existsb (has_id (Message.id payload)) prev
  then prev
  else prev ++ [payload].

(** *** handleSendMessage *)

Record SendAnswer := mkSendAnswer {
  insertError : option PostgrestError.t;
  inserted_as : Store.assigned
}.

Definition handleSendMessage
    (ans : SendAnswer) (currentUserId : option uuid) (s : State)
    (db : Store.t) : State * Store.t * list Event :=
  if negb (JS.truthy (JS.trim (inputValue s))) then (s, db, [])
  else
    match selectedConversation s, currentUserId with
    | Some selected, Some me =>
        if negb (JS.truthy_id (Some me)) then (s, db, [])
        else
          let text := JS.trim (inputValue s) in
          let s1 := setInputValue [] s in
          let request := InsertMessage (Conversation.id selected) me text in
          match insertError ans with
          | Some _ =>
              (* the answer of the insert is awaited but not inspected *)
              (s1, db, [request])
          | None =>
              let row :=
                Message.mk (Store.new_id (inserted_as ans))
                           (Store.now (inserted_as ans))
                           (Conversation.id selected) me text in
              (s1, Store.insert_message row db, [request])
          end
    | _, _ => (s, db, [])
    end.

(** *** The component as a state machine *)

(** The view, the channels the realtime client has joined, the next
    channel identity, and the store this client writes to. *)
Record World := mkWorld {
  view : State;
  joined : list Channel;
  serial : nat;
  db : Store.t
}.

Definition with_view (s : State) (w : World) : World :=
  mkWorld s (joined w) (serial w) (db w).

Definition same_channel (a b : Channel) : bool :=
  (handle a =? handle b)%nat.

(** [supabase.removeChannel(channel)] *)
Definition removeChannel (ch : Channel) (w : World) : World :=
  mkWorld (view w)
          (filter (fun c => negb (same_channel c ch)) (joined w))
          (serial w) (db w).

(** The function the subscription effect returns. *)
Definition cleanup (w : World) : World * list Event :=
  match channel (view w) with
  | Some ch =>
      (with_view (setChannel None (view w)) (removeChannel ch w),
       [RemoveChannel (handle ch)])
  | None => (w, [])
  end.

(** The effect on [selectedConversation]: the previous run is cleaned up,
    then, for a selected conversation, the messages are requested and a
    new channel is subscribed.  (The answer to the request arrives as an
    action of its own.) *)
Definition subscription_effect (w : World) : World * list Event :=
  let (w1, ev1) := cleanup w in
  match selectedConversation (view w1) with
  | None => (w1, ev1)
  | Some selected =>
      let ch := mkChannel (serial w1) (Conversation.id selected) in
      (mkWorld (setChannel (Some ch) (view w1))
               (joined w1 ++ [ch]) (S (serial w1)) (db w1),
       ev1 ++ [Subscribe (handle ch) (Conversation.id selected)])
  end.

Definition setSelectedConversation (v : option Conversation.t) (w : World)
  : World * list Event :=
  subscription_effect (with_view (setSelected v (view w)) w).

(** The effect on [initialConversationId] and [conversations]. *)
Definition open_initial (w : World) : World * list Event :=
  match initialConversationId (view w) with
  | None => (w, [])
  | Some wanted =>
      if (wanted =? "")%string
         || (List.length (conversations (view w)) =? 0)%nat
      then (w, [])
      else
        match find (fun c => (Conversation.id c =? wanted)%string)
                   (conversations (view w)) with
        | Some found => setSelectedConversation (Some found) w
        | None => (w, [])
        end
  end.

(** The realtime client hands an INSERT to every joined channel whose
    filter matches; the handler updates [messages] through [onInsert]. *)
Definition deliver_to (payload : Message.t) (acc : State * list Event)
    (ch : Channel) : State * list Event :=
  if (filter_conversation_id ch =? Message.conversation_id payload)%string
  then (setMessages (onInsert payload (messages (fst acc))) (fst acc),
        snd acc ++ [Callback (handle ch) payload])
  else acc.

Definition dispatch (payload : Message.t) (w : World) : World * list Event :=
  let r := fold_left (deliver_to payload) (joined w) (view w, []) in
  (with_view (fst r) w, snd r).

(** What can happen to a mounted view.  An answer carries the table the
    server evaluated the query on, which need not be the table of the
    moment the answer arrives; a delivery is an INSERT event of the
    realtime service, for a row written by any client. *)
Inductive Action :=
| ConversationsAnswered (error : option PostgrestError.t) (tbl : list ConvRow.t)
| MessagesAnswered (error : option PostgrestError.t) (convId : uuid)
                   (tbl : list Message.t)
| ClickChat (n : nat)
| ClickBack
| TabChange
| Change (value : jsstring)
| Send (ans : SendAnswer)
| Delivered (payload : Message.t)
| Unmount.

(** The state after the first render, before any effect has an answer. *)
Definition mount (initial : option uuid) (currentUserId : option uuid)
    (db0 : Store.t) : World :=
  mkWorld
    (mkState initial [] None [] []
             (JS.truthy_id currentUserId) false None true)
    [] 0 db0.

Definition step (currentUserId : option uuid) (a : Action) (w : World)
  : World * list Event :=
  match a with
  | Delivered payload => dispatch payload w
  | _ =>
    if negb (mounted (view w)) then (w, [])
    else
      match a with
      | ConversationsAnswered error tbl =>
          match currentUserId with
          | Some userId =>
              if JS.truthy_id currentUserId then
                let (s1, ev1) := fetchConversations error userId tbl (view w) in
                match error with
                | Some _ => (with_view s1 w, ev1)
                | None =>
                    let (w2, ev2) := open_initial (with_view s1 w) in
                    (w2, ev1 ++ ev2)
                end
              else (w, [])
          | None => (w, [])
          end
      | MessagesAnswered error convId tbl =>
          let (s1, ev1) := fetchMessages error convId tbl (view w) in
          (with_view s1 w, ev1)
      | ClickChat n =>
          match nth_error (conversations (view w)) n with
          | Some chat => setSelectedConversation (Some chat) w
          | None => (w, [])
          end
      | ClickBack => setSelectedConversation None w
      | TabChange =>
          (with_view (setInitialConversationId None (view w)) w, [])
      | Change value => (with_view (setInputValue value (view w)) w, [])
      | Send ans =>
          let '(s1, db1, ev1) :=
            handleSendMessage ans currentUserId (view w) (db w) in
          (mkWorld s1 (joined w) (serial w) db1, ev1)
      | Unmount =>
          let (w1, ev1) := cleanup w in
          (with_view (setMounted false (view w1)) w1, ev1)
      | Delivered payload => dispatch payload w
      end
  end.

Fixpoint run (currentUserId : option uuid) (acts : list Action) (w : World)
  : World * list Event :=
  match acts with
  | [] => (w, [])
  | a :: rest =>
      let (w1, ev1) := step currentUserId a w in
      let (w2, ev2) := run currentUserId rest w1 in
      (w2, ev1 ++ ev2)
  end.

(** The store keeps [id] as a primary key: the rows of a table have
    pairwise distinct ids. *)
Definition distinct_ids (l : list Message.t) : Prop :=
  NoDup (map Message.id l).

(** An answer to [fetchMessages] is computed from a table of the store. *)
Definition from_store (a : Action) : Prop :=
  match a with
  | MessagesAnswered _ _ tbl => distinct_ids tbl
  | _ => True
  end.

Definition occurrences (i : uuid) (l : list Message.t) : nat :=
  List.length (filter (has_id i) l).

(** The message list after the handler ran on each of [pushes] in turn. *)
Definition pushed (pushes : list Message.t) (prev : list Message.t)
  : list Message.t :=
  fold_left (fun l payload => onInsert payload l) pushes prev.

(** The tables the store answered [fetchConversations] from in a run. *)
Definition answered_tables (acts : list Action) : list (list ConvRow.t) :=
  flat_map (fun a => match a with
                     | ConversationsAnswered None tbl => [tbl]
                     | _ => []
                     end) acts.

(** [c] is the view's copy of a row in which [u] takes part, of one of
    the tables the store answered from. *)
Definition drawn_from (u : uuid) (tables : list (list ConvRow.t))
    (c : Conversation.t) : Prop :=
  exists tbl row,
    In tbl tables /\ In row tbl
    /\ Store.is_participant u row = true
    /\ c = Conversation.spread row (otherId_of u row).

(** Every conversation the view holds, listed or selected, is drawn from
    the answers of the store. *)
Definition view_drawn_from (u : uuid) (tables : list (list ConvRow.t))
    (w : World) : Prop :=
  (forall c, In c (conversations (view w)) -> drawn_from u tables c)
  /\ (forall c, selectedConversation (view w) = Some c -> drawn_from u tables c).

(** The channel the view keeps for its cleanup is the one joined channel,
    its identity is older than the next one to be given out, and only a
    mounted view keeps one. *)
Definition coherent (w : World) : Prop :=
  joined w = match channel (view w) with Some ch => [ch] | None => [] end
  /\ (forall ch, channel (view w) = Some ch ->
                 handle ch < serial w /\ mounted (view w) = true).

(** Two worlds with the same subscription state. *)
Definition same_subscription (w w' : World) : Prop :=
  joined w' = joined w
  /\ channel (view w') = channel (view w)
  /\ serial w' = serial w
  /\ mounted (view w') = mounted (view w).

(** The identity [h] was given out and is not joined. *)
Definition retired (h : nat) (w : World) : Prop :=
  h < serial w /\ forall c, In c (joined w) -> handle c <> h.

(** The invocations of the INSERT handler of channel [h] in a trace. *)
Definition callbacks_of (h : nat) (trace : list Event) : list Event :=
  filter (fun e => match e with
                   | Callback h' _ => (h' =? h)%nat
                   | _ => false
                   end) trace.

(** At most one entry per other user. *)
Definition one_per_user (l : list Conversation.t) : Prop :=
  NoDup (map Conversation.other_user_id l).

End Messages.

(** ** Sample data *)

Module Sample.

Definition alice : uuid := "alice".
Definition bob : uuid := "bob".
Definition carol : uuid := "carol".

Definition c1 : ConvRow.t := ConvRow.mk "c1" 10 (Some "lamp"%string) alice carol.
Definition c2 : ConvRow.t := ConvRow.mk "c2" 20 (Some "desk"%string) alice bob.
Definition c3 : ConvRow.t := ConvRow.mk "c3" 30 (Some "bike"%string) bob alice.
Definition c4 : ConvRow.t := ConvRow.mk "c4" 5 None alice alice.

(** Rows in which alice takes part, newest first; bob appears twice. *)
Definition rows_of_alice : list ConvRow.t := [c3; c2; c1; c4].

Definition hello : Message.t := Message.mk "m1" 100 "c3" alice (utf16 "hello").
Definition hi : Message.t := Message.mk "m2" 200 "c3" bob (utf16 "hi").
Definition bye : Message.t := Message.mk "m3" 300 "c3" alice (utf16 "bye").
Definition elsewhere : Message.t := Message.mk "m4" 150 "c1" alice (utf16 "sold?").

Definition empty_db : Store.t := Store.mk [] [].

Definition accepts (i : uuid) (t : timestamp) : Messages.SendAnswer :=
  Messages.mkSendAnswer None (Store.mk_assigned i t).

(** Alice opens the view, the list arrives, she opens the first chat. *)
Definition opening : list Messages.Action :=
  [ Messages.ConversationsAnswered None rows_of_alice; Messages.ClickChat 0 ].

Definition chat_open : Messages.World :=
  fst (Messages.run (Some alice) opening
                    (Messages.mount None (Some alice) empty_db)).

Definition typed (value : jsstring) : Messages.State :=
  Messages.setInputValue value (Messages.view chat_open).

Definition blank : jsstring := utf16 "   ".

End Sample.

(** ** ItemDetail: the photo carousel *)

Module Carousel.

(** [currentPhotoIdx] is a JavaScript number.  [None] stands for NaN,
    which [% 0] produces and every later operation keeps. *)
Definition index := option Z.

(** [(prev + 1) % photos.length] *)
Definition handleNext (photos_length : Z) (prev : index) : index :=
  match prev with
  | Some p =>
      if (photos_length =? 0)%Z then None
      else Some (Z.rem (p + 1) photos_length)
  | None => None
  end.

(** [(prev - 1 + photos.length) % photos.length] *)
Definition handlePrev (photos_length : Z) (prev : index) : index :=
  match prev with
  | Some p =>
      if (photos_length =? 0)%Z then None
      else Some (Z.rem (p - 1 + photos_length) photos_length)
  | None => None
  end.

Inductive Click := Next | Prev.

Definition click (photos_length : Z) (idx : index) (c : Click) : index :=
  match c with
  | Next => handleNext photos_length idx
  | Prev => handlePrev photos_length idx
  end.

(** The index after a series of clicks; the state starts at 0. *)
Definition clicks (photos_length : Z) (cs : list Click) : index :=
  fold_left (click photos_length) cs (Some 0%Z).

(** [photos[currentPhotoIdx]], the image a render shows. *)
Definition shown {A : Type} (photos : list A) (idx : index) : option A :=
  match idx with
  | Some i => if (i <? 0)%Z then None else nth_error photos (Z.to_nat i)
  | None => None
  end.

End Carousel.

(** ** ItemDetail: favourites *)

Module Favorites.

(** A row of [favorites]. *)
Record Row := mkRow {
  id : uuid;
  user_id : uuid;
  listing_id : uuid
}.

(** How a request ends: the store carries it out, the store answers with
    an error object, or the call throws; in the last two cases the table
    is as it was. *)
Inductive Outcome :=
| Served
| Refused (e : PostgrestError.t)
| Thrown.

Record Answer := mkAnswer {
  outcome : Outcome;
  new_id : uuid
}.

(** [.eq('user_id', user).eq('listing_id', listing)] *)
Definition is_favorite (user listing : uuid) (r : Row) : bool :=
  (user_id r =? user)%string && (listing_id r =? listing)%string.

(** [.single()]: the row when exactly one matches, no data otherwise. *)
Definition single {A : Type} (rows : list A) : option A :=
  match rows with
  | [r] => Some r
  | _ => None
  end.

(** [checkFavorite]: the new value of [isFavorited]. *)
Definition checkFavorite
    (out : Outcome) (session_user_id : option uuid) (item_id : uuid)
    (isFavorited0 : bool) (tbl : list Row) : bool :=
  if negb (JS.truthy_id session_user_id) then isFavorited0
  else
    match session_user_id with
    | Some me =>
        match out with
        | Served =>
            match single (filter (is_favorite me item_id) tbl) with
            | Some _ => true
            | None => false
            end
        | Refused _ => false
        | Thrown => isFavorited0
        end
    | None => isFavorited0
    end.

Inductive Effect :=
| FavoriteChange (isSaved : bool)
| DeleteFavorite (user listing : uuid)
| InsertFavorite (user listing : uuid).

Record Result := mkResult {
  isFavorited : bool;
  favorites : list Row;
  trace : list Effect
}.

(** [toggleFavorite].  [notify] tells whether the optional
    [onFavoriteChange] callback was passed.  (The 400 ms burst animation
    flag is left out.) *)
Definition toggleFavorite
    (ans : Answer) (notify : bool) (session_user_id : option uuid)
    (item_id : uuid) (isFavorited0 : bool) (tbl : list Row) : Result :=
  if negb (JS.truthy_id session_user_id) then mkResult isFavorited0 tbl []
  else
    match session_user_id with
    | Some me =>
        let nextState := negb isFavorited0 in
        let told := if notify then [FavoriteChange nextState] else [] in
        if negb nextState then
          let request := told ++ [DeleteFavorite me item_id] in
          match outcome ans with
          | Served =>
              mkResult nextState
                (filter (fun r => negb (is_favorite me item_id r)) tbl) request
          | Refused _ => mkResult nextState tbl request
          | Thrown => mkResult (negb nextState) tbl request
          end
        else
          let request := told ++ [InsertFavorite me item_id] in
          match outcome ans with
          | Served =>
              mkResult nextState (tbl ++ [mkRow (new_id ans) me item_id]) request
          | Refused _ => mkResult nextState tbl request
          | Thrown => mkResult (negb nextState) tbl request
          end
    | None => mkResult isFavorited0 tbl []
    end.

(** The heart and the store agree: filled with exactly one row, empty with
    none. *)
Definition agree (user listing : uuid) (isFavorited0 : bool) (tbl : list Row)
  : Prop :=
  List.length (filter (is_favorite user listing) tbl)
  = if isFavorited0 then 1 else 0.

End Favorites.

(** ** ItemDetail: owner or visitor *)

Module Listings.

(** [session?.user?.id === item.seller_id] *)
Definition isOwner (session_user_id : option uuid) (item : ItemDetail.Item)
  : bool :=
  match session_user_id with
  | Some me => (me =? ItemDetail.item_seller_id item)%string
  | None => false
  end.

(** The button under the seller card. *)
Inductive Button := DeleteListing | MessageSeller.

Definition button (session_user_id : option uuid) (item : ItemDetail.Item)
  : Button :=
  if isOwner session_user_id item then DeleteListing else MessageSeller.

End Listings.

(** ** Messages: names and avatars of the other users *)

Module Profiles.

(** The columns [fetchAndCacheUserProfile] selects; each may be null. *)
Record Profile := mkProfile {
  full_name : option jsstring;
  avatar_url : option jsstring;
  username : option jsstring
}.

(** Truthiness of a nullable string. *)
Definition truthy (o : option jsstring) : bool :=
  match o with
  | Some (_ :: _) => true
  | _ => false
  end.

Definition text_of (o : option jsstring) : jsstring :=
  match o with
  | Some s => s
  | None => []
  end.

(** A [Record<string, string>] held in state. *)
Definition Cache := list (uuid * jsstring).

(** [cache[key]] *)
Definition lookup (key : uuid) (cache : Cache) : option jsstring :=
  option_map snd (find (fun entry => (fst entry =? key)%string) cache).

(** [{ ...cache, [key]: value }] *)
Definition assign (key : uuid) (value : jsstring) (cache : Cache) : Cache :=
  (key, value)
    :: filter (fun entry => negb (fst entry =? key)%string) cache.

Record Caches := mkCaches {
  userNames : Cache;
  userAvatars : Cache
}.

(** What [.maybeSingle()] hands to the handler, which reads [data] only:
    the profile, no data (no row, or an error object), or a throw. *)
Inductive Answer :=
| Found (profile : Profile)
| Missing
| Thrown.

Section WithCaseMapping.

(** [String.prototype.toUpperCase] *)
Variable toUpperCase : jsstring -> jsstring.

(** [`Student ${userId.slice(0, 4).toUpperCase()}`] *)
Definition student (userId : uuid) : jsstring :=
  utf16 "Student " ++ toUpperCase (utf16 (substring 0 4 userId)).

(** [profile.full_name || (profile.username ? `@${profile.username}` :
    `Student ...`)] *)
Definition identity_of (userId : uuid) (profile : Profile) : jsstring :=
  if truthy (full_name profile) then text_of (full_name profile)
  else if truthy (username profile)
       then utf16 "@" ++ text_of (username profile)
       else student userId.

Definition fetchAndCacheUserProfile
    (ans : Answer) (userId : uuid) (c : Caches) : Caches :=
  if (userId =? "")%string then c
  else
    match ans with
    | Found profile =>
        let names := assign userId (identity_of userId profile) (userNames c) in
        if truthy (avatar_url profile)
        then mkCaches names
                      (assign userId (text_of (avatar_url profile)) (userAvatars c))
        else mkCaches names (userAvatars c)
    | Missing => mkCaches (assign userId (student userId) (userNames c))
                          (userAvatars c)
    | Thrown => c
    end.

(** The look-ups [fetchConversations] starts for the listed chats, with
    their answers processed in the order [arrivals]. *)
Definition cache_profiles
    (answers : uuid -> Answer) (arrivals : list Conversation.t) (c : Caches)
  : Caches :=
  fold_left
    (fun acc conv =>
       fetchAndCacheUserProfile (answers (Conversation.other_user_id conv))
                                (Conversation.other_user_id conv) acc)
    arrivals c.

End WithCaseMapping.

(** [userNames[userId] || 'Syncing...'] *)
Definition getUserDisplayName (userId : uuid) (c : Caches) : jsstring :=
  if truthy (lookup userId (userNames c))
  then text_of (lookup userId (userNames c))
  else utf16 "Syncing...".

(** [userAvatars[userId] || `https://api.dicebear.com/...?seed=${userId}`] *)
Definition getAvatar (userId : uuid) (c : Caches) : jsstring :=
  if truthy (lookup userId (userAvatars c))
  then text_of (lookup userId (userAvatars c))
  else utf16 ("https://api.dicebear.com/7.x/avataaars/svg?seed=" ++ userId).

(** The name shown comes from the cache, not from the placeholder. *)
Definition named (userId : uuid) (c : Caches) : Prop :=
  truthy (lookup userId (userNames c)) = true.

End Profiles.

(** ** App: what is on screen and the unread badge *)

Module App.

Inductive Tab := HOME | MESSAGES | SELL | PROFILE.

Definition is_messages (t : Tab) : bool :=
  match t with MESSAGES => true | _ => false end.

Record State := mkState {
  session : option uuid;
  activeTab : Tab;
  viewingItem : option ItemDetail.Item;
  openConversationId : option uuid;
  unreadCount : nat
}.

(** What [App] renders once the session is known. *)
Inductive Content :=
| Login
| ItemDetailView (item : ItemDetail.Item)
| MarketplaceView
| MessagesView (initialConversationId : option uuid)
| SellFlowView
| ProfileView.

Definition renderContent (s : State) : Content :=
  match session s with
  | None => Login
  | Some _ =>
      match viewingItem s with
      | Some item => ItemDetailView item
      | None =>
          match activeTab s with
          | HOME => MarketplaceView
          | MESSAGES => MessagesView (openConversationId s)
          | SELL => SellFlowView
          | PROFILE => ProfileView
          end
      end
  end.

Definition setViewingItem (v : option ItemDetail.Item) (s : State) : State :=
  mkState (session s) (activeTab s) v (openConversationId s) (unreadCount s).

Definition setOpenConversationId (v : option uuid) (s : State) : State :=
  mkState (session s) (activeTab s) (viewingItem s) v (unreadCount s).

Definition setUnreadCount (v : nat) (s : State) : State :=
  mkState (session s) (activeTab s) (viewingItem s) (openConversationId s) v.

Definition setSession (v : option uuid) (s : State) : State :=
  mkState v (activeTab s) (viewingItem s) (openConversationId s) (unreadCount s).

(** [setActiveTab], followed by the effect on [activeTab], which runs when
    the tab changed: on the Messages tab the badge is reset. *)
Definition setActiveTab (v : Tab) (s : State) : State :=
  let s1 := mkState (session s) v (viewingItem s) (openConversationId s)
                    (unreadCount s) in
  if is_messages v && negb (is_messages (activeTab s))
  then setUnreadCount 0 s1
  else s1.

(** [convId || null] *)
Definition or_null (convId : option uuid) : option uuid :=
  if JS.truthy_id convId then convId else None.

(** The [onMessage] passed to [ItemDetail]. *)
Definition onMessage (convId : option uuid) (s : State) : State :=
  setActiveTab MESSAGES
    (setOpenConversationId (or_null convId) (setViewingItem None s)).

(** The [onTabChange] passed to [Navigation]. *)
Definition onTabChange (tab : Tab) (s : State) : State :=
  setOpenConversationId None (setActiveTab tab s).

(** The handler of the [global-notifications] channel.  [captured] is the
    [activeTab] of the render that subscribed it, [tbl] the table the store
    looks the conversation up in. *)
Definition on_notification
    (me : uuid) (captured : Tab) (newMessage : Message.t)
    (tbl : list ConvRow.t) (s : State) : State :=
  if negb (Message.sender_id newMessage =? me)%string then
    match Favorites.single
            (filter (fun c => (ConvRow.id c =? Message.conversation_id newMessage)%string)
                    tbl) with
    | Some conv =>
        if (ConvRow.buyer_id conv =? me)%string || (ConvRow.seller_id conv =? me)%string
        then if negb (is_messages captured)
             then setUnreadCount (unreadCount s + 1) s
             else s
        else s
    | None => s
    end
  else s.

Inductive Action :=
| SelectItem (item : ItemDetail.Item)
| Back
| Message (convId : option uuid)
| TabChange (tab : Tab)
| GoHome
| AuthChange (session : option uuid)
| Notified (captured : Tab) (newMessage : Message.t) (tbl : list ConvRow.t).

(** A click is possible only where its element is rendered: items are
    selected in the marketplace and the profile, and the navigation bar is
    hidden while an item is viewed.  The callbacks handed to the children
    are another matter: [onBack] runs after the awaited delete of
    [handleDelete], [onMessage] after the awaited requests of
    [handleMessageSeller], and [onSuccess] after the awaited upload and
    insert of a listing form, so each of them may run when its view is no
    longer the one rendered; they only call state setters of [App], which
    work whatever is on screen. *)
Definition step (a : Action) (s : State) : State :=
  match a with
  | AuthChange v => setSession v s
  | Notified captured newMessage tbl =>
      match session s with
      | Some me =>
          if JS.truthy_id (Some me)
          then on_notification me captured newMessage tbl s
          else s
      | None => s
      end
  | Back => setViewingItem None s
  | Message convId => onMessage convId s
  | GoHome => setActiveTab HOME s
  | SelectItem item =>
      match renderContent s with
      | MarketplaceView | ProfileView => setViewingItem (Some item) s
      | _ => s
      end
  | TabChange tab =>
      match renderContent s with
      | Login | ItemDetailView _ => s
      | _ => onTabChange tab s
      end
  end.

End App.

(** ** App: provisioning the profile of a signed-in user *)

Module Provision.

Record Metadata := mkMetadata {
  meta_full_name : option jsstring;
  meta_username : option jsstring;
  meta_avatar_url : option jsstring
}.

(** The fields of the auth user that [ensureProfileExists] reads. *)
Record User := mkUser {
  user_id : uuid;
  email : option jsstring;
  user_metadata : option Metadata
}.

(** A row of [profiles]. *)
Record Row := mkRow {
  id : uuid;
  full_name : option jsstring;
  username : option jsstring;
  avatar_url : option jsstring;
  updated_at : option jsstring
}.

(** [user.user_metadata?.field] *)
Definition meta (user : User) (field : Metadata -> option jsstring)
  : option jsstring :=
  match user_metadata user with
  | Some m => field m
  | None => None
  end.

(** [a || b] with a nullable left side. *)
Definition or_text (a : option jsstring) (b : jsstring) : jsstring :=
  if Profiles.truthy a then Profiles.text_of a else b.

(** [s.split('@')[0]] *)
Fixpoint before_at (s : jsstring) : jsstring :=
  match s with
  | [] => []
  | c :: rest => if (c =? 64)%N then [] else c :: before_at rest
  end.

(** The character class [a-z0-t0-9] of the source: the ranges a..z, 0..t
    and 0..9 of code units. *)
Definition in_class (c : N) : bool :=
  ((97 <=? c) && (c <=? 122))%N
  || ((48 <=? c) && (c <=? 116))%N
  || ((48 <=? c) && (c <=? 57))%N.

(** [.replace(/[^a-z0-t0-9]/g, '')] *)
Definition strip (s : jsstring) : jsstring := filter in_class s.

Section WithCaseMapping.

(** [String.prototype.toLowerCase] *)
Variable toLowerCase : jsstring -> jsstring.

Definition fullName (user : User) : jsstring :=
  or_text (meta user meta_full_name)
    (or_text (option_map before_at (email user)) (utf16 "New Comet")).

Definition userName (user : User) : jsstring :=
  or_text (meta user meta_username)
    (or_text (option_map (fun e => strip (toLowerCase (before_at e))) (email user))
             (utf16 "user" ++ utf16 (substring 0 4 (user_id user)))).

Definition avatarUrl (user : User) : jsstring :=
  or_text (meta user meta_avatar_url)
    (utf16 ("https://api.dicebear.com/7.x/avataaars/svg?seed=" ++ user_id user)).

(** [.upsert(row)] on the primary key [id]. *)
Definition upsert (row : Row) (tbl : list Row) : list Row :=
  if existsb (fun r => (id r =? id row)%string) tbl
  then map (fun r => if (id r =? id row)%string then row else r) tbl
  else tbl ++ [row].

Inductive Request :=
| SelectProfile (userId : uuid)
| UpsertProfile (row : Row).

Record Result := mkResult {
  profiles : list Row;
  userAvatar : option jsstring;
  requests : list Request
}.

(** [ensureProfileExists].  [looked_up] and [upserted] say how the two
    requests end, [now] is [new Date().toISOString()]. *)
Definition ensureProfileExists
    (looked_up upserted : Favorites.Outcome) (now : jsstring) (user : User)
    (userAvatar0 : option jsstring) (tbl : list Row) : Result :=
  let lookup := SelectProfile (user_id user) in
  match looked_up with
  | Favorites.Thrown => mkResult tbl userAvatar0 [lookup]
  | Favorites.Refused _ => mkResult tbl userAvatar0 [lookup]
  | Favorites.Served =>
      match filter (fun r => (id r =? user_id user)%string) tbl with
      | [] =>
          let row := mkRow (user_id user) (Some (fullName user))
                           (Some (userName user)) (Some (avatarUrl user))
                           (Some now) in
          match upserted with
          | Favorites.Served =>
              mkResult (upsert row tbl) (Some (avatarUrl user))
                       [lookup; UpsertProfile row]
          | Favorites.Refused _ =>
              mkResult tbl (Some (avatarUrl user)) [lookup; UpsertProfile row]
          | Favorites.Thrown =>
              mkResult tbl userAvatar0 [lookup; UpsertProfile row]
          end
      | [profile] => mkResult tbl (avatar_url profile) [lookup]
      | _ => mkResult tbl userAvatar0 [lookup]
      end
  end.

End WithCaseMapping.

Definition is_upsert (r : Request) : bool :=
  match r with UpsertProfile _ => true | _ => false end.

End Provision.

(** ** Across the components *)

Module Flow.

(** At most one conversation per unordered pair of users. *)
Definition pairs_unique (tbl : list ConvRow.t) : Prop :=
  forall x y,
    List.length (filter (ItemDetail.is_dm_between x y) tbl) <= 1.

(** A mounted view has one joined channel, filtered on the selected
    conversation, and none while the list is shown; an unmounted view has
    none. *)
Definition subscribed_to_selection (w : Messages.World) : Prop :=
  if Messages.mounted (Messages.view w) then
    match Messages.selectedConversation (Messages.view w) with
    | Some selected =>
        exists h,
          Messages.joined w = [Messages.mkChannel h (Conversation.id selected)]
          /\ Messages.channel (Messages.view w)
             = Some (Messages.mkChannel h (Conversation.id selected))
    | None => Messages.joined w = [] /\ Messages.channel (Messages.view w) = None
    end
  else Messages.joined w = [] /\ Messages.channel (Messages.view w) = None.

(** Ascending by [created_at]. *)
Definition ascending (l : list Message.t) : Prop :=
  StronglySorted (fun a b => Message.created_at a <= Message.created_at b)%Z l.

(** No white space at either end. *)
Definition trimmed (s : jsstring) : Prop :=
  (forall c rest, s = c :: rest -> JS.isWhiteSpace c = false)
  /\ (forall c front, s = front ++ [c] -> JS.isWhiteSpace c = false).

Definition blank (s : jsstring) : Prop :=
  forallb JS.isWhiteSpace s = true.

End Flow.

(** * Properties *)

(** ** Lists *)

Section ListFacts.

Context {A : Type}.

Lemma find_filter_implied (p q : A -> bool) (l : list A) :
  (forall x, p x = true -> q x = true) ->
  find p (filter q l) = find p l.
Proof.
  intros Hpq. induction l as [|x l IH]; simpl; [reflexivity|].
  destruct (q x) eqn:Hq; simpl.
  - destruct (p x); [reflexivity | exact IH].
  - destruct (p x) eqn:Hp; [|exact IH].
    apply Hpq in Hp. congruence.
Qed.

Lemma find_ext_pointwise (p q : A -> bool) (l : list A) :
  (forall x, p x = q x) -> find p l = find q l.
Proof.
  intros E. induction l as [|x l IH]; simpl; [reflexivity|].
  rewrite E, IH. reflexivity.
Qed.

Lemma find_app_none (p : A -> bool) (l l' : list A) :
  find p l = None -> find p (l ++ l') = find p l'.
Proof.
  induction l as [|x l IH]; simpl; [reflexivity|].
  destruct (p x); [discriminate | exact IH].
Qed.

Lemma find_is_some (p : A -> bool) (l : list A) (x : A) :
  In x l -> p x = true -> exists y, find p l = Some y.
Proof.
  intros Hin Hp. destruct (find p l) as [y|] eqn:F; [eauto|].
  rewrite (find_none _ _ F x Hin) in Hp. discriminate.
Qed.

Lemma filter_find_none (p : A -> bool) (l : list A) :
  find p l = None -> filter p l = [].
Proof.
  induction l as [|x l IH]; simpl; [reflexivity|].
  destruct (p x); [discriminate | exact IH].
Qed.

Lemma filter_at_most_one (p : A -> bool) (l : list A) (a b : A) :
  List.length (filter p l) <= 1 ->
  In a l -> In b l -> p a = true -> p b = true -> a = b.
Proof.
  intros Hlen Ha Hb Hpa Hpb.
  assert (Hfa : In a (filter p l)) by (apply filter_In; tauto).
  assert (Hfb : In b (filter p l)) by (apply filter_In; tauto).
  destruct (filter p l) as [|x [|y rest]].
  - destruct Hfa.
  - destruct Hfa as [<-|[]], Hfb as [<-|[]]. reflexivity.
  - simpl in Hlen. lia.
Qed.

(** An ordered answer holds the rows it was made of, in any order asked or
    not asked. *)
Lemma place_in_iff (le : A -> A -> bool) (x y : A) (l : list A) :
  In y (Store.place le x l) <-> y = x \/ In y l.
Proof.
  induction l as [|z l IH]; simpl.
  - intuition.
  - destruct (le x z); simpl; [intuition | rewrite IH; intuition].
Qed.

Lemma order_in_iff (le : A -> A -> bool) (y : A) (l : list A) :
  In y (Store.order le l) <-> In y l.
Proof.
  induction l as [|x l IH]; simpl; [reflexivity|].
  fold (Store.order le l). rewrite place_in_iff, IH. intuition.
Qed.

End ListFacts.

(** ** The conversation resolver *)

Section ResolverFacts.

Import ItemDetail.

Lemma is_dm_between_spec (me other : uuid) (c : ConvRow.t) :
  is_dm_between me other c = true <-> between me other c.
Proof.
  unfold is_dm_between, between.
  rewrite orb_true_iff, !andb_true_iff, !String.eqb_eq. reflexivity.
Qed.

Lemma is_dm_between_sym (x y : uuid) (c : ConvRow.t) :
  is_dm_between x y c = is_dm_between y x c.
Proof.
  unfold is_dm_between.
  rewrite orb_comm.
  rewrite (andb_comm (ConvRow.buyer_id c =? y)%string).
  rewrite (andb_comm (ConvRow.buyer_id c =? x)%string).
  destruct (ConvRow.buyer_id c =? x)%string, (ConvRow.seller_id c =? y)%string,
           (ConvRow.buyer_id c =? y)%string, (ConvRow.seller_id c =? x)%string;
    reflexivity.
Qed.

Lemma is_dm_between_participant (me other : uuid) (c : ConvRow.t) :
  is_dm_between me other c = true -> Store.is_participant me c = true.
Proof.
  unfold is_dm_between, Store.is_participant.
  rewrite !orb_true_iff, !andb_true_iff. tauto.
Qed.

(** Whatever order the store answers in, the fetched rows are the rows of
    the table the user takes part in. *)
Lemma fetched_in_iff (rank : ConvRow.t -> Z) (me : uuid)
    (tbl : list ConvRow.t) (c : ConvRow.t) :
  In c (Store.select_conversations rank me tbl)
  <-> In c tbl /\ Store.is_participant me c = true.
Proof.
  unfold Store.select_conversations. rewrite order_in_iff. apply filter_In.
Qed.

(** What the local scan returns is a row of the table between the two. *)
Lemma scan_found (rank : ConvRow.t -> Z) (me other : uuid)
    (tbl : list ConvRow.t) (c : ConvRow.t) :
  find (is_dm_between me other) (Store.select_conversations rank me tbl) = Some c ->
  In c tbl /\ is_dm_between me other c = true.
Proof.
  intros F. destruct (find_some _ _ F) as [Hin Hb].
  apply fetched_in_iff in Hin. tauto.
Qed.

(** It returns nothing only when the table holds no row between the two. *)
Lemma scan_missing (rank : ConvRow.t -> Z) (me other : uuid)
    (tbl : list ConvRow.t) :
  find (is_dm_between me other) (Store.select_conversations rank me tbl) = None ->
  filter (is_dm_between me other) tbl = [].
Proof.
  intros F.
  destruct (filter (is_dm_between me other) tbl) as [|c rest] eqn:E;
    [reflexivity|].
  assert (Hc : In c (filter (is_dm_between me other) tbl))
    by (rewrite E; now left).
  apply filter_In in Hc. destruct Hc as [Hin Hb].
  assert (Hf : In c (Store.select_conversations rank me tbl)).
  { apply fetched_in_iff. split; [exact Hin|].
    now apply (is_dm_between_participant me other). }
  rewrite (find_none _ _ F c Hf) in Hb. discriminate.
Qed.

Lemma scan_present (rank : ConvRow.t -> Z) (me other : uuid)
    (tbl : list ConvRow.t) (c : ConvRow.t) :
  In c tbl -> is_dm_between me other c = true ->
  exists c',
    find (is_dm_between me other) (Store.select_conversations rank me tbl)
    = Some c'.
Proof.
  intros Hin Hb. apply (find_is_some _ _ c); [|exact Hb].
  apply fetched_in_iff. split; [exact Hin|].
  now apply (is_dm_between_participant me other).
Qed.


Lemma truthy_id_some (me : uuid) :
  JS.truthy_id (Some me) = true -> negb (JS.truthy_id (Some me)) || false = false.
Proof. intros ->. reflexivity. Qed.

(** What a call does when the scan finds a conversation. *)
Lemma resolve_existing ans me other listing db0 existing :
  JS.truthy_id (Some me) = true ->
  findError ans = None ->
  find (is_dm_between me other)
       (Store.select_conversations (row_rank ans) me (Store.conversations db0))
  = Some existing ->
  resolve ans (Some me) other listing db0
  = mkResult db0 false [SelectConversations me; OnMessage (ConvRow.id existing)].
Proof.
  intros Hme Hfind Hex. unfold resolve, handleMessageSeller.
  rewrite (truthy_id_some _ Hme), Hfind. simpl item_seller_id.
  cbv zeta. rewrite Hex. reflexivity.
Qed.

(** What a call does when the scan finds none. *)
Lemma resolve_missing ans me other listing db0 :
  JS.truthy_id (Some me) = true ->
  answered ans ->
  find (is_dm_between me other)
       (Store.select_conversations (row_rank ans) me (Store.conversations db0))
  = None ->
  resolve ans (Some me) other listing db0
  = let created :=
      ConvRow.mk (Store.new_id (created_as ans)) (Store.now (created_as ans))
                 (Some listing) me other in
    mkResult (Store.insert_conversation created db0) false
      [SelectConversations me; InsertConversation listing me other;
       OnMessage (ConvRow.id created)].
Proof.
  intros Hme [Hfind Hcreate] Hex. unfold resolve, handleMessageSeller.
  rewrite (truthy_id_some _ Hme), Hfind. simpl item_seller_id.
  cbv zeta. rewrite Hex, Hcreate. reflexivity.
Qed.

(** A call that gets past the guard leaves the handler free for the next
    one: [finally] resets [isMessaging]. *)
Lemma handleMessageSeller_releases ans me item db0 :
  JS.truthy_id (Some me) = true ->
  isMessaging (handleMessageSeller ans (Some me) item false db0) = false.
Proof.
  intros Hme. unfold handleMessageSeller. rewrite (truthy_id_some _ Hme).
  destruct (findError ans); [reflexivity|].
  cbv zeta. destruct (find _ _); [reflexivity|].
  destruct (createError ans); reflexivity.
Qed.

(** After an answered call the store holds a conversation of the pair
    whose id is the handle the call returned, found or created by it. *)
Lemma resolve_establishes ans me other listing db0 :
  JS.truthy_id (Some me) = true ->
  answered ans ->
  exists c,
    In c (Store.conversations (db (resolve ans (Some me) other listing db0)))
    /\ is_dm_between me other c = true
    /\ handle_of (resolve ans (Some me) other listing db0) = Some (ConvRow.id c)
    /\ found_or_created ans me other listing db0
         (db (resolve ans (Some me) other listing db0)) c.
Proof.
  intros Hme Hans.
  destruct (find (is_dm_between me other)
              (Store.select_conversations (row_rank ans) me
                 (Store.conversations db0))) as [c|] eqn:F.
  - exists c. rewrite (resolve_existing _ _ _ _ _ _ Hme (proj1 Hans) F).
    destruct (scan_found _ _ _ _ _ F) as [Hin Hb]. simpl.
    split; [exact Hin|]. split; [exact Hb|]. split; [reflexivity|].
    left. split; [exact Hin | reflexivity].
  - rewrite (resolve_missing _ _ _ _ _ Hme Hans F). cbv zeta.
    eexists. split; [|split; [|split; [reflexivity|]]].
    + simpl. apply in_or_app. right. left. reflexivity.
    + unfold is_dm_between. simpl. rewrite !String.eqb_refl. reflexivity.
    + right. split; [|split; reflexivity].
      intros c' Hin Hb. apply is_dm_between_spec in Hb.
      apply scan_missing in F.
      assert (Hf : In c' (filter (is_dm_between me other) (Store.conversations db0)))
        by (apply filter_In; tauto).
      rewrite F in Hf. destruct Hf.
Qed.

Lemma is_dm_between_same_pair (x y me other : uuid) (c : ConvRow.t) :
  is_dm_between x y c = true ->
  is_dm_between me other c = true ->
  forall c', is_dm_between x y c' = is_dm_between me other c'.
Proof.
  intros Hxy Hmo c'.
  apply is_dm_between_spec in Hxy. apply is_dm_between_spec in Hmo.
  assert (E : (x = me /\ y = other) \/ (x = other /\ y = me)).
  { destruct Hxy as [[E1 E2]|[E1 E2]], Hmo as [[E3 E4]|[E3 E4]];
      [left|right|right|left]; split; congruence. }
  destruct E as [[-> ->]|[-> ->]]; [reflexivity | apply is_dm_between_sym].
Qed.

(** What a call does to the tables: the messages are untouched, and the
    conversations either stay or gain one row, appended when the store
    held none for the pair. *)
Lemma handleMessageSeller_tables ans session item isM db0 :
  let r := handleMessageSeller ans session item isM db0 in
  Store.messages (db r) = Store.messages db0
  /\ (Store.conversations (db r) = Store.conversations db0
      \/ exists me created,
           session = Some me
           /\ Store.conversations (db r) = Store.conversations db0 ++ [created]
           /\ ConvRow.buyer_id created = me
           /\ ConvRow.seller_id created = item_seller_id item
           /\ filter (is_dm_between me (item_seller_id item))
                     (Store.conversations db0) = []).
Proof.
  unfold handleMessageSeller.
  destruct session as [me|]; [|split; [|left]; reflexivity].
  destruct (negb (JS.truthy_id (Some me)) || isM); [split; [|left]; reflexivity|].
  destruct (findError ans); [split; [|left]; reflexivity|].
  cbv zeta.
  destruct (find _ _) eqn:F; [split; [|left]; reflexivity|].
  destruct (createError ans); [split; [|left]; reflexivity|].
  split; [reflexivity|]. right. eexists me, _.
  repeat split. now apply scan_missing in F.
Qed.

(** A call never adds a second conversation of a pair. *)
Lemma at_most_one_between_kept ans session item isM db0 x y :
  at_most_one_between x y (Store.conversations db0) ->
  at_most_one_between x y
    (Store.conversations (db (handleMessageSeller ans session item isM db0))).
Proof.
  unfold at_most_one_between. intros U.
  destruct (handleMessageSeller_tables ans session item isM db0)
    as [_ [Hc|[me [created [_ [Hc [Hb [Hs Hnone]]]]]]]]; rewrite Hc; [exact U|].
  rewrite filter_app, length_app. simpl.
  destruct (is_dm_between x y created) eqn:E; simpl; [|lia].
  assert (Hme : is_dm_between me (item_seller_id item) created = true).
  { unfold is_dm_between. rewrite Hb, Hs, !String.eqb_refl. reflexivity. }
  rewrite (filter_ext _ _ (is_dm_between_same_pair _ _ _ _ _ E Hme)).
  rewrite Hnone. simpl. lia.
Qed.

Lemma pairs_unique_kept ans session item isM db0 :
  Flow.pairs_unique (Store.conversations db0) ->
  Flow.pairs_unique
    (Store.conversations (db (handleMessageSeller ans session item isM db0))).
Proof.
  intros U x y. apply at_most_one_between_kept. exact (U x y).
Qed.












End ResolverFacts.

Section ResolverOutcome.

Import ItemDetail.

(** Claim C3: when the store holds a conversation between the unordered
    pair, resolve returns the handle of such a conversation and writes
    nothing; when it holds none, resolve inserts exactly one record with
    buyer = current user, seller = other user and listing = the context
    listing, and returns the handle the store assigned to it. *)
Theorem resolve_finds_or_creates :
  forall (ans : Answers) (me other listing : uuid) (db0 : Store.t),
    JS.truthy_id (Some me) = true ->
    answered ans ->
    let r := resolve ans (Some me) other listing db0 in
    ((exists c, In c (Store.conversations db0) /\ between me other c) ->
     exists existing,
       In existing (Store.conversations db0)
       /\ between me other existing
       /\ handle_of r = Some (ConvRow.id existing)
       /\ db r = db0
       /\ filter is_store_write (trace r) = [])
    /\
    ((forall c, In c (Store.conversations db0) -> ~ between me other c) ->
     exists created,
       db r = Store.mk (Store.conversations db0 ++ [created]) (Store.messages db0)
       /\ ConvRow.buyer_id created = me
       /\ ConvRow.seller_id created = other
       /\ ConvRow.listing_id created = Some listing
       /\ ConvRow.id created = Store.new_id (created_as ans)
       /\ handle_of r = Some (ConvRow.id created)
       /\ filter is_store_write (trace r) = [InsertConversation listing me other]).
Proof.
  intros ans me other listing db0 Hme Hans r. split.
  - intros [c [Hin Hc]].
    apply is_dm_between_spec in Hc.
    destruct (scan_present (row_rank ans) _ _ _ _ Hin Hc) as [existing F].
    destruct (scan_found _ _ _ _ _ F) as [Hin' Hb].
    exists existing. subst r.
    rewrite (resolve_existing _ _ _ _ _ _ Hme (proj1 Hans) F).
    repeat split; try assumption.
    now apply is_dm_between_spec.
  - intros Hnone.
    assert (F : find (is_dm_between me other)
                  (Store.select_conversations (row_rank ans) me
                     (Store.conversations db0)) = None).
    { destruct (find (is_dm_between me other)
                  (Store.select_conversations (row_rank ans) me
                     (Store.conversations db0))) as [c|] eqn:F; [|reflexivity].
      destruct (scan_found _ _ _ _ _ F) as [Hin Hb].
      apply is_dm_between_spec in Hb. destruct (Hnone c Hin Hb). }
    subst r. rewrite (resolve_missing _ _ _ _ _ Hme Hans F). cbv zeta.
    eexists. repeat split.
Qed.

Lemma resolve_finds_or_creates_witness :
  exists created,
    db (resolve (mkAnswers None None (Store.mk_assigned "c1" 10) ItemDetail.table_order)
                (Some "alice"%string) "bob" "lamp" (Store.mk [] []))
    = Store.mk [created] []
    /\ ConvRow.buyer_id created = "alice"%string
    /\ ConvRow.seller_id created = "bob"%string.
Proof.
  destruct (resolve_finds_or_creates
              (mkAnswers None None (Store.mk_assigned "c1" 10) ItemDetail.table_order)
              "alice" "bob" "lamp" (Store.mk [] []))
    as [_ Hcreate].
  - reflexivity.
  - split; reflexivity.
  - destruct Hcreate as [created [Hdb [Hb [Hs _]]]].
    + intros c [].
    + exists created. split; [exact Hdb | split; [exact Hb | exact Hs]].
Defined.

(** Claim C8, as stated, fails: without a current user the call surfaces
    no error at all. *)
Lemma resolve_unauthenticated_no_error :
  ~ surfaces_error
      (trace (resolve (mkAnswers None None (Store.mk_assigned "c1" 10) ItemDetail.table_order)
                      None "bob" "lamp" (Store.mk [] []))).
Proof. intros [e [[] _]]. Qed.

(** Claim C8, amended: without an authenticated current user the call
    returns silently: it performs no conversation fetch and no insert,
    leaves the store as it is, opens no conversation and reports no
    error. *)
Theorem resolve_unauthenticated :
  forall (ans : Answers) (currentUser : option uuid) (other listing : uuid)
         (db0 : Store.t),
    JS.truthy_id currentUser = false ->
    let r := resolve ans currentUser other listing db0 in
    trace r = []
    /\ db r = db0
    /\ handle_of r = None
    /\ ~ surfaces_error (trace r).
Proof.
  intros ans currentUser other listing db0 H r.
  assert (E : r = mkResult db0 false []).
  { subst r. unfold resolve, handleMessageSeller.
    destruct currentUser as [me|]; [|reflexivity].
    rewrite H. reflexivity. }
  rewrite E. simpl. repeat split.
  intros [e [[] _]].
Qed.

Lemma resolve_unauthenticated_witness :
  trace (resolve (mkAnswers None None (Store.mk_assigned "c1" 10) ItemDetail.table_order)
                 None "bob" "lamp" (Store.mk [] [])) = [].
Proof.
  apply (resolve_unauthenticated
           (mkAnswers None None (Store.mk_assigned "c1" 10) ItemDetail.table_order)
           None "bob" "lamp" (Store.mk [] [])).
  reflexivity.
Defined.

End ResolverOutcome.

(** ** Ordered answers of the store *)

Section OrderFacts.

Context {A : Type} (le : A -> A -> bool).

Hypothesis le_total : forall a b, le a b = true \/ le b a = true.
Hypothesis le_trans : forall a b c, le a b = true -> le b c = true -> le a c = true.

Lemma place_perm (x : A) (l : list A) :
  Permutation (Store.place le x l) (x :: l).
Proof.
  induction l as [|y l IH]; simpl; [apply Permutation_refl|].
  destruct (le x y); [apply Permutation_refl|].
  eapply perm_trans; [apply perm_skip, IH | apply perm_swap].
Qed.

Lemma order_perm (l : list A) : Permutation (Store.order le l) l.
Proof.
  induction l as [|x l IH]; simpl; [constructor|].
  eapply perm_trans; [apply place_perm | apply perm_skip, IH].
Qed.

Lemma place_sorted (x : A) (l : list A) :
  StronglySorted (fun a b => le a b = true) l ->
  StronglySorted (fun a b => le a b = true) (Store.place le x l).
Proof.
  induction 1 as [|y l Hs IH Hy]; simpl.
  - constructor; constructor.
  - destruct (le x y) eqn:E.
    + constructor; [constructor; assumption|].
      constructor; [exact E|].
      eapply Forall_impl; [|exact Hy]. intros z Hz. eauto.
    + constructor; [exact IH|].
      assert (Hyx : le y x = true) by (destruct (le_total x y); congruence).
      eapply Permutation_Forall; [apply Permutation_sym, place_perm|].
      constructor; assumption.
Qed.

Lemma order_sorted (l : list A) :
  StronglySorted (fun a b => le a b = true) (Store.order le l).
Proof.
  induction l as [|x l IH]; simpl; [constructor|].
  apply place_sorted, IH.
Qed.

End OrderFacts.

Lemma StronglySorted_weaken {A : Type} (R S : A -> A -> Prop) (l : list A) :
  (forall a b, R a b -> S a b) -> StronglySorted R l -> StronglySorted S l.
Proof.
  intros HRS. induction 1 as [|x l Hs IH Hx]; constructor; [exact IH|].
  eapply Forall_impl; [|exact Hx]. intros b. apply HRS.
Qed.

Lemma StronglySorted_after {A : Type} (R : A -> A -> Prop) (pre post : list A) (x : A) :
  StronglySorted R (pre ++ x :: post) -> Forall (R x) post.
Proof.
  induction pre as [|y pre IH]; simpl; intros H.
  - now inversion H.
  - inversion H; subst. now apply IH.
Qed.

(** A sequence sorted on strictly increasing keys is the only sorted
    arrangement of its elements. *)
Lemma sorted_arrangement_unique {A : Type} (key : A -> Z) (l l' : list A) :
  StronglySorted (fun a b => key a < key b)%Z l ->
  StronglySorted (fun a b => key a <= key b)%Z l' ->
  Permutation l' l ->
  l' = l.
Proof.
  intros Hl. revert l'.
  induction Hl as [|x l Hs IH Hx]; intros l' Hl' P.
  - apply Permutation_sym, Permutation_nil in P. exact P.
  - destruct l' as [|y l'].
    + apply Permutation_nil in P. discriminate.
    + inversion Hl' as [|? ? Hs' Hy]; subst.
      assert (E : y = x).
      { assert (Hyin : In y (x :: l)) by (eapply Permutation_in; [exact P | now left]).
        destruct Hyin as [->|Hyin]; [reflexivity|].
        assert (Hxin : In x (y :: l'))
          by (eapply Permutation_in; [apply Permutation_sym, P | now left]).
        rewrite Forall_forall in Hx, Hy.
        specialize (Hx _ Hyin).
        destruct Hxin as [->|Hxin]; [reflexivity|].
        specialize (Hy _ Hxin). lia. }
      subst y. f_equal. apply IH; [exact Hs'|].
      eapply Permutation_cons_inv. exact P.
Qed.

(** ** The unordered select can be answered in every order *)

Section AnswerOrder.

Lemma by_rank_total (rank : ConvRow.t -> Z) (a b : ConvRow.t) :
  Store.by_rank rank a b = true \/ Store.by_rank rank b a = true.
Proof. unfold Store.by_rank. rewrite !Z.leb_le. lia. Qed.

Lemma by_rank_trans (rank : ConvRow.t -> Z) (a b c : ConvRow.t) :
  Store.by_rank rank a b = true -> Store.by_rank rank b c = true ->
  Store.by_rank rank a c = true.
Proof. unfold Store.by_rank. rewrite !Z.leb_le. lia. Qed.

Lemma index_of_nonneg (i : uuid) (ids : list uuid) :
  (0 <= Store.index_of i ids)%Z.
Proof.
  induction ids as [|j ids IH]; cbn [Store.index_of]; [lia|].
  destruct (j =? i)%string; lia.
Qed.

Lemma StronglySorted_within {A : Type} (R S : A -> A -> Prop) (l : list A) :
  (forall a b, In a l -> In b l -> R a b -> S a b) ->
  StronglySorted R l -> StronglySorted S l.
Proof.
  intros HRS Hs. induction Hs as [|x l Hs IH Hx]; constructor.
  - apply IH. intros a b Ha Hb. apply HRS; now right.
  - rewrite Forall_forall in *. intros b Hb.
    apply HRS; [now left | now right | now apply Hx].
Qed.

(** Rows with distinct ids stand in strictly increasing rank of their own
    listing. *)
Lemma as_listed_increasing (l : list ConvRow.t) :
  NoDup (map ConvRow.id l) ->
  StronglySorted (fun a b => Store.as_listed l a < Store.as_listed l b)%Z l.
Proof.
  induction l as [|x l IH]; intros Hnd; [constructor|].
  inversion Hnd as [|? ? Hx Hnd']; subst.
  assert (Hshift : forall b, In b l ->
            Store.as_listed (x :: l) b = (1 + Store.as_listed l b)%Z).
  { intros b Hb. unfold Store.as_listed. cbn [map Store.index_of].
    destruct (ConvRow.id x =? ConvRow.id b)%string eqn:E; [|reflexivity].
    apply String.eqb_eq in E. destruct Hx. rewrite E. now apply in_map. }
  constructor.
  - apply (StronglySorted_within
             (fun a b => Store.as_listed l a < Store.as_listed l b)%Z);
      [|now apply IH].
    intros a b Ha Hb Hab. rewrite (Hshift a Ha), (Hshift b Hb). lia.
  - apply Forall_forall. intros b Hb. rewrite (Hshift b Hb).
    unfold Store.as_listed at 1. cbn [map Store.index_of].
    rewrite String.eqb_refl.
    pose proof (index_of_nonneg (ConvRow.id b) (map ConvRow.id l)).
    unfold Store.as_listed. lia.
Qed.

(** The model of the unordered select leaves no order out: every
    arrangement of the rows the user takes part in is the answer for some
    rank. *)
Lemma every_arrangement_is_an_answer
    (uid : uuid) (tbl arranged : list ConvRow.t) :
  NoDup (map ConvRow.id tbl) ->
  Permutation arranged (filter (Store.is_participant uid) tbl) ->
  Store.select_conversations (Store.as_listed arranged) uid tbl = arranged.
Proof.
  intros Hnd P.
  assert (Hnd' : NoDup (map ConvRow.id arranged)).
  { apply (Permutation_NoDup
             (l := map ConvRow.id (filter (Store.is_participant uid) tbl))).
    - apply Permutation_map, Permutation_sym, P.
    - clear P. induction tbl as [|r tbl IH]; simpl; [constructor|].
      inversion Hnd as [|? ? Hr Hrest]; subst.
      destruct (Store.is_participant uid r); simpl; [|now apply IH].
      constructor; [|now apply IH].
      intros Hin. apply Hr. apply in_map_iff in Hin.
      destruct Hin as [c [Ec Hc]]. apply filter_In in Hc.
      rewrite <- Ec. apply in_map. tauto. }
  unfold Store.select_conversations.
  apply (sorted_arrangement_unique (Store.as_listed arranged)).
  - now apply as_listed_increasing.
  - apply (StronglySorted_weaken
             (fun a b => Store.by_rank (Store.as_listed arranged) a b = true)).
    + intros a b. unfold Store.by_rank. now rewrite Z.leb_le.
    + apply order_sorted; [apply by_rank_total | apply by_rank_trans].
  - eapply perm_trans; [apply order_perm | apply Permutation_sym, P].
Qed.

End AnswerOrder.

(** ** The conversation list *)

Section ConversationListFacts.

Import Messages.

Variable userId : uuid.

Lemma group_cases (acc : list Conversation.t) (conv : ConvRow.t) :
  (group userId acc conv = acc
   /\ (otherId_of userId conv = userId
       \/ exists c, In c acc
                    /\ Conversation.other_user_id c = otherId_of userId conv))
  \/ (group userId acc conv
      = acc ++ [Conversation.spread conv (otherId_of userId conv)]
      /\ otherId_of userId conv <> userId
      /\ forall c, In c acc ->
                   Conversation.other_user_id c <> otherId_of userId conv).
Proof.
  unfold group.
  destruct (otherId_of userId conv =? userId)%string eqn:E.
  - left. split; [reflexivity|]. left. now apply String.eqb_eq.
  - apply String.eqb_neq in E.
    destruct (find _ acc) as [c|] eqn:F.
    + left. split; [reflexivity|]. right.
      destruct (find_some _ _ F) as [Hin Hb]. apply String.eqb_eq in Hb. eauto.
    + right. repeat split; [exact E|].
      intros c Hin Hc. pose proof (find_none _ _ F c Hin) as Hb. simpl in Hb.
      apply String.eqb_neq in Hb. contradiction.
Qed.

Lemma one_per_user_snoc (l : list Conversation.t) (c : Conversation.t) :
  one_per_user l ->
  (forall c', In c' l -> Conversation.other_user_id c' <> Conversation.other_user_id c) ->
  one_per_user (l ++ [c]).
Proof.
  unfold one_per_user. intros Hl Hc. rewrite map_app. simpl.
  apply NoDup_app; [exact Hl | constructor; [intros [] | constructor] |].
  intros o Hin [<-|[]].
  apply in_map_iff in Hin. destruct Hin as [c' [E Hin]].
  exact (Hc c' Hin E).
Qed.

Lemma fold_group_one_per_user (data : list ConvRow.t) (acc : list Conversation.t) :
  one_per_user acc -> one_per_user (fold_left (group userId) data acc).
Proof.
  revert acc. induction data as [|conv data IH]; intros acc Hacc; simpl; [exact Hacc|].
  apply IH.
  destruct (group_cases acc conv) as [[-> _]|[-> [_ Hnew]]]; [exact Hacc|].
  apply one_per_user_snoc; [exact Hacc|]. exact Hnew.
Qed.

(** Where an entry of the list comes from: it was there before, or it is
    the first row of the data for its other user, a user that had no
    entry before. *)
Lemma fold_group_origin (data : list ConvRow.t) (acc : list Conversation.t)
      (c : Conversation.t) :
  In c (fold_left (group userId) data acc) ->
  In c acc
  \/ exists pre row post,
       data = pre ++ row :: post
       /\ c = Conversation.spread row (otherId_of userId row)
       /\ otherId_of userId row <> userId
       /\ (forall r, In r pre -> otherId_of userId r <> otherId_of userId row)
       /\ (forall a, In a acc ->
                     Conversation.other_user_id a <> otherId_of userId row).
Proof.
  revert acc. induction data as [|conv data IH]; intros acc Hin; simpl in Hin.
  - now left.
  - destruct (IH _ Hin) as [Hacc | [pre [row [post [E [Hc [Hne [Hpre Hfresh]]]]]]]].
    + destruct (group_cases acc conv) as [[Eg _]|[Eg [Hne Hnew]]];
        rewrite Eg in Hacc; [now left|].
      apply in_app_or in Hacc. destruct Hacc as [Hacc|[<-|[]]]; [now left|].
      right. exists [], conv, data.
      repeat split; [exact Hne | intros r [] | exact Hnew].
    + right. exists (conv :: pre), row, post. subst data.
      destruct (group_cases acc conv) as [[Eg Hwhy]|[Eg [Hne' Hnew]]];
        rewrite Eg in Hfresh.
      * repeat split; try assumption.
        intros r [<-|Hr]; [|now apply Hpre].
        intros Esame. destruct Hwhy as [Hself|[c' [Hc' E']]].
        -- congruence.
        -- apply (Hfresh c' Hc'). congruence.
      * repeat split; try assumption.
        -- intros r [<-|Hr]; [|now apply Hpre].
           intros Esame.
           apply (Hfresh (Conversation.spread conv (otherId_of userId conv))).
           ++ apply in_or_app. right. now left.
           ++ simpl. exact Esame.
        -- intros a Ha. apply Hfresh. apply in_or_app. now left.
Qed.

Lemma grouped_origin (data : list ConvRow.t) (c : Conversation.t) :
  In c (grouped userId data) ->
  exists pre row post,
    data = pre ++ row :: post
    /\ c = Conversation.spread row (otherId_of userId row)
    /\ otherId_of userId row <> userId
    /\ forall r, In r pre -> otherId_of userId r <> otherId_of userId row.
Proof.
  intros Hin. destruct (fold_group_origin _ _ _ Hin)
    as [[]|[pre [row [post [E [Hc [Hne [Hpre _]]]]]]]].
  exists pre, row, post. auto.
Qed.

End ConversationListFacts.

Section ConversationList.

Import Messages.

(** Each entry is at least as new as every row of its pair, when the rows
    come newest first. *)
Lemma grouped_newest (userId : uuid) (data : list ConvRow.t)
      (c : Conversation.t) (r : ConvRow.t) :
  StronglySorted (fun a b => ConvRow.created_at b <= ConvRow.created_at a)%Z data ->
  In c (grouped userId data) -> In r data ->
  otherId_of userId r = Conversation.other_user_id c ->
  (ConvRow.created_at r <= Conversation.created_at c)%Z.
Proof.
  intros Hsorted Hin Hr Hsame.
  destruct (grouped_origin _ _ _ Hin) as [pre [row [post [E [-> [_ Hpre]]]]]].
  simpl in *. subst data.
  apply in_app_or in Hr. destruct Hr as [Hr|[<-|Hr]].
  - destruct (Hpre r Hr Hsame).
  - lia.
  - apply StronglySorted_after in Hsorted.
    rewrite Forall_forall in Hsorted. exact (Hsorted r Hr).
Qed.

(** Claim C10: for rows sorted descending by [created_at], the list the
    view builds has at most one entry per other user, has no entry whose
    other participant is the current user, and each entry is the first
    row of the data for its other user, hence the newest of that pair. *)
Theorem conversation_list_one_per_pair :
  forall (userId : uuid) (data : list ConvRow.t),
    StronglySorted
      (fun a b => ConvRow.created_at b <= ConvRow.created_at a)%Z data ->
    let shown := grouped userId data in
    NoDup (map Conversation.other_user_id shown)
    /\ (forall c, In c shown -> Conversation.other_user_id c <> userId)
    /\ (forall c, In c shown ->
          exists pre row post,
            data = pre ++ row :: post
            /\ c = Conversation.spread row (otherId_of userId row)
            /\ (forall r, In r pre ->
                  otherId_of userId r <> Conversation.other_user_id c))
    /\ (forall c r, In c shown -> In r data ->
          otherId_of userId r = Conversation.other_user_id c ->
          (ConvRow.created_at r <= Conversation.created_at c)%Z).
Proof.
  intros userId data Hsorted shown. repeat split.
  - apply (fold_group_one_per_user userId data []). constructor.
  - intros c Hin. destruct (grouped_origin _ _ _ Hin)
      as [pre [row [post [_ [-> [Hne _]]]]]]. exact Hne.
  - intros c Hin. destruct (grouped_origin _ _ _ Hin)
      as [pre [row [post [E [-> [_ Hpre]]]]]].
    exists pre, row, post. repeat split; [exact E | exact Hpre].
  - intros c r. now apply grouped_newest.
Qed.

End ConversationList.

(** ** Loading the messages of a conversation *)

Section LoadFacts.

Import Messages.

Lemma msg_older_first_total (a b : Message.t) :
  Store.msg_older_first a b = true \/ Store.msg_older_first b a = true.
Proof. unfold Store.msg_older_first. rewrite !Z.leb_le. lia. Qed.

Lemma msg_older_first_trans (a b c : Message.t) :
  Store.msg_older_first a b = true -> Store.msg_older_first b c = true ->
  Store.msg_older_first a c = true.
Proof. unfold Store.msg_older_first. rewrite !Z.leb_le. lia. Qed.

Lemma conv_newer_first_total (a b : ConvRow.t) :
  Store.conv_newer_first a b = true \/ Store.conv_newer_first b a = true.
Proof. unfold Store.conv_newer_first. rewrite !Z.leb_le. lia. Qed.

Lemma conv_newer_first_trans (a b c : ConvRow.t) :
  Store.conv_newer_first a b = true -> Store.conv_newer_first b c = true ->
  Store.conv_newer_first a c = true.
Proof. unfold Store.conv_newer_first. rewrite !Z.leb_le. lia. Qed.

Lemma select_messages_ascending (convId : uuid) (tbl : list Message.t) :
  StronglySorted (fun a b => Message.created_at a <= Message.created_at b)%Z
                 (Store.select_messages convId tbl).
Proof.
  unfold Store.select_messages.
  eapply StronglySorted_weaken;
    [| apply (order_sorted _ msg_older_first_total msg_older_first_trans)].
  intros a b. unfold Store.msg_older_first. apply Z.leb_le.
Qed.

Lemma select_messages_perm (convId : uuid) (tbl : list Message.t) :
  Permutation (Store.select_messages convId tbl)
              (filter (Store.in_conversation convId) tbl).
Proof. apply order_perm. Qed.

Lemma select_conversations_descending (uid : uuid) (tbl : list ConvRow.t) :
  StronglySorted (fun a b => ConvRow.created_at b <= ConvRow.created_at a)%Z
                 (Store.select_conversations_newest_first uid tbl).
Proof.
  unfold Store.select_conversations_newest_first.
  eapply StronglySorted_weaken;
    [| apply (order_sorted _ conv_newer_first_total conv_newer_first_trans)].
  intros a b. unfold Store.conv_newer_first. apply Z.leb_le.
Qed.

(** Claim C5: load returns the messages of the conversation, all of them
    and no others, ordered ascending by [created_at]; three messages
    inserted at times t1 < t2 < t3 are returned in exactly that order. *)
Theorem load_ascending :
  forall (convId : uuid) (tbl : list Message.t) (s : State),
    StronglySorted (fun a b => Message.created_at a <= Message.created_at b)%Z
                   (load convId tbl s)
    /\ Permutation (load convId tbl s)
                   (filter (Store.in_conversation convId) tbl)
    /\ forall m1 m2 m3,
         Permutation (filter (Store.in_conversation convId) tbl) [m1; m2; m3] ->
         (Message.created_at m1 < Message.created_at m2)%Z ->
         (Message.created_at m2 < Message.created_at m3)%Z ->
         load convId tbl s = [m1; m2; m3].
Proof.
  intros convId tbl s. unfold load. simpl.
  split; [apply select_messages_ascending|].
  split; [apply select_messages_perm|].
  intros m1 m2 m3 P H12 H23.
  apply (sorted_arrangement_unique Message.created_at).
  - repeat constructor; lia.
  - apply select_messages_ascending.
  - eapply perm_trans; [apply select_messages_perm | exact P].
Qed.

End LoadFacts.

(** ** The subscription handler *)

Section PushFacts.

Import Messages.

Lemma existsb_has_id (i : uuid) (l : list Message.t) :
  existsb (has_id i) l = true <-> In i (map Message.id l).
Proof.
  rewrite existsb_exists, in_map_iff. unfold has_id.
  split; intros [m H]; exists m; rewrite String.eqb_eq in *; tauto.
Qed.

Lemma onInsert_present (payload : Message.t) (prev : list Message.t) :
  In (Message.id payload) (map Message.id prev) -> onInsert payload prev = prev.
Proof.
  intros H. unfold onInsert. apply existsb_has_id in H. now rewrite H.
Qed.

Lemma onInsert_absent (payload : Message.t) (prev : list Message.t) :
  ~ In (Message.id payload) (map Message.id prev) ->
  onInsert payload prev = prev ++ [payload].
Proof.
  intros H. unfold onInsert.
  destruct (existsb _ prev) eqn:E; [|reflexivity].
  apply existsb_has_id in E. contradiction.
Qed.

Lemma onInsert_distinct (payload : Message.t) (prev : list Message.t) :
  distinct_ids prev -> distinct_ids (onInsert payload prev).
Proof.
  unfold distinct_ids. intros H.
  destruct (in_dec String.string_dec (Message.id payload) (map Message.id prev))
    as [Hin|Hout].
  - now rewrite onInsert_present.
  - rewrite onInsert_absent by assumption. rewrite map_app. simpl.
    apply NoDup_app; [exact H | constructor; [intros [] | constructor] |].
    intros i Hi [<-|[]]. contradiction.
Qed.

Lemma onInsert_has (payload : Message.t) (prev : list Message.t) :
  In (Message.id payload) (map Message.id (onInsert payload prev)).
Proof.
  destruct (in_dec String.string_dec (Message.id payload) (map Message.id prev))
    as [Hin|Hout].
  - now rewrite onInsert_present.
  - rewrite onInsert_absent by assumption. rewrite map_app.
    apply in_or_app. right. now left.
Qed.

Lemma onInsert_keeps (payload : Message.t) (prev : list Message.t) (i : uuid) :
  In i (map Message.id prev) -> In i (map Message.id (onInsert payload prev)).
Proof.
  intros H. unfold onInsert. destruct (existsb _ prev); [exact H|].
  rewrite map_app. apply in_or_app. now left.
Qed.

Lemma occurrences_absent (i : uuid) (l : list Message.t) :
  ~ In i (map Message.id l) -> occurrences i l = 0.
Proof.
  unfold occurrences. induction l as [|m l IH]; simpl; [reflexivity|].
  intros H. unfold has_id at 1.
  destruct (Message.id m =? i)%string eqn:E.
  - apply String.eqb_eq in E. exfalso. apply H. now left.
  - apply IH. intros Hin. apply H. now right.
Qed.

Lemma occurrences_once (i : uuid) (l : list Message.t) :
  distinct_ids l -> In i (map Message.id l) -> occurrences i l = 1.
Proof.
  unfold distinct_ids, occurrences.
  induction l as [|m l IH]; simpl; intros Hnd Hin; [destruct Hin|].
  inversion Hnd as [|? ? Hout Hnd']; subst.
  unfold has_id at 1. destruct (Message.id m =? i)%string eqn:E.
  - apply String.eqb_eq in E. subst i. simpl.
    f_equal. now apply occurrences_absent.
  - apply String.eqb_neq in E. destruct Hin as [Hin|Hin]; [contradiction|].
    now apply IH.
Qed.

Lemma pushed_distinct (pushes prev : list Message.t) :
  distinct_ids prev -> distinct_ids (pushed pushes prev).
Proof.
  unfold pushed. revert prev.
  induction pushes as [|p pushes IH]; intros prev H; simpl; [exact H|].
  apply IH, onInsert_distinct, H.
Qed.

Lemma pushed_keeps (pushes prev : list Message.t) (i : uuid) :
  In i (map Message.id prev) -> In i (map Message.id (pushed pushes prev)).
Proof.
  unfold pushed. revert prev.
  induction pushes as [|p pushes IH]; intros prev H; simpl; [exact H|].
  apply IH, onInsert_keeps, H.
Qed.

Lemma pushed_has (pushes prev : list Message.t) (m : Message.t) :
  In m pushes -> In (Message.id m) (map Message.id (pushed pushes prev)).
Proof.
  revert prev.
  induction pushes as [|p pushes IH]; intros prev Hin; [destruct Hin|].
  destruct Hin as [<-|Hin]; simpl.
  - apply (pushed_keeps pushes). apply onInsert_has.
  - now apply IH.
Qed.

(** Every step of the component keeps the ids of the displayed messages
    distinct. *)
Lemma select_messages_distinct (convId : uuid) (tbl : list Message.t) :
  distinct_ids tbl -> distinct_ids (Store.select_messages convId tbl).
Proof.
  unfold distinct_ids. intros H.
  eapply Permutation_NoDup.
  - apply Permutation_sym, Permutation_map, order_perm.
  - clear -H. induction tbl as [|m tbl IH]; simpl; [constructor|].
    inversion H as [|? ? Hout Hnd]; subst.
    destruct (Store.in_conversation convId m); [|now apply IH].
    simpl. constructor; [|now apply IH].
    intros Hin. apply Hout.
    apply in_map_iff in Hin. destruct Hin as [m' [E Hin]].
    apply filter_In in Hin. apply in_map_iff. exists m'. tauto.
Qed.

Lemma deliver_fold_distinct (payload : Message.t) (chs : list Channel)
      (acc : State * list Event) :
  distinct_ids (messages (fst acc)) ->
  distinct_ids (messages (fst (fold_left (deliver_to payload) chs acc))).
Proof.
  revert acc. induction chs as [|ch chs IH]; intros acc H; simpl; [exact H|].
  apply IH. unfold deliver_to.
  destruct (filter_conversation_id ch =? Message.conversation_id payload)%string;
    [|exact H].
  simpl. now apply onInsert_distinct.
Qed.

Lemma subscription_effect_messages (w : World) :
  messages (view (fst (subscription_effect w))) = messages (view w).
Proof.
  unfold subscription_effect, cleanup.
  destruct (channel (view w)) as [ch|]; simpl;
    destruct (selectedConversation (view w)); reflexivity.
Qed.

Lemma open_initial_messages (w : World) :
  messages (view (fst (open_initial w))) = messages (view w).
Proof.
  unfold open_initial.
  destruct (initialConversationId (view w)) as [wanted|]; [|reflexivity].
  destruct ((wanted =? "")%string || _); [reflexivity|].
  destruct (find _ _); [|reflexivity].
  unfold setSelectedConversation. now rewrite subscription_effect_messages.
Qed.

Lemma handleSendMessage_messages ans u s d :
  messages (fst (fst (handleSendMessage ans u s d))) = messages s.
Proof.
  unfold handleSendMessage.
  destruct (negb _); [reflexivity|].
  destruct (selectedConversation s); [|reflexivity].
  destruct u as [me|]; [|reflexivity].
  destruct (negb _); [reflexivity|].
  destruct (insertError ans); reflexivity.
Qed.

Lemma dispatch_distinct (payload : Message.t) (w : World) :
  distinct_ids (messages (view w)) ->
  distinct_ids (messages (view (fst (dispatch payload w)))).
Proof.
  intros H. unfold dispatch. simpl.
  now apply deliver_fold_distinct.
Qed.

Lemma step_distinct (u : option uuid) (a : Action) (w : World) :
  from_store a ->
  distinct_ids (messages (view w)) ->
  distinct_ids (messages (view (fst (step u a w)))).
Proof.
  intros Ha H.
  destruct a; unfold step; try (now apply dispatch_distinct);
    (destruct (negb (mounted (view w))); [exact H|]).
  - destruct u as [userId|]; [|exact H].
    destruct (JS.truthy_id (Some userId)); [|exact H].
    destruct error as [err|]; simpl.
    + destruct (PostgrestError.code err =? "42P01")%string; exact H.
    + match goal with
      | |- context [open_initial ?x] =>
          pose proof (open_initial_messages x) as E;
          destruct (open_initial x) as [w2 ev2]
      end.
      simpl in *. now rewrite E.
  - destruct error as [err|]; simpl; [exact H|].
    now apply select_messages_distinct.
  - destruct (nth_error _ n); [|exact H].
    unfold setSelectedConversation. now rewrite subscription_effect_messages.
  - unfold setSelectedConversation. now rewrite subscription_effect_messages.
  - exact H.
  - exact H.
  - pose proof (handleSendMessage_messages ans u (view w) (db w)) as E.
    destruct (handleSendMessage ans u (view w) (db w)) as [[s1 db1] ev1].
    simpl in *. now rewrite E.
  - unfold cleanup. destruct (channel (view w)); exact H.
Qed.

Lemma run_distinct (u : option uuid) (acts : list Action) (w : World) :
  Forall from_store acts ->
  distinct_ids (messages (view w)) ->
  distinct_ids (messages (view (fst (run u acts w)))).
Proof.
  revert w. induction acts as [|a acts IH]; intros w Ha H; simpl; [exact H|].
  inversion Ha as [|? ? Ha1 Ha2]; subst.
  pose proof (step_distinct u a w Ha1 H) as H1.
  destruct (step u a w) as [w1 ev1]. simpl in H1.
  specialize (IH w1 Ha2 H1).
  destruct (run u acts w1) as [w2 ev2]. exact IH.
Qed.

(** What the handler does achieve: it discards a pushed message whose id
    is already on display and appends any other; so, starting from what
    load returned, however the pushes arrive and repeat, every loaded or
    pushed message is on display exactly once, and in every run of the
    component (loads and pushes in any order) no two displayed messages
    share an id. *)
Lemma push_observed_once :
  forall (loaded : list Message.t),
    distinct_ids loaded ->
    (forall payload,
       In (Message.id payload) (map Message.id loaded) ->
       onInsert payload loaded = loaded)
    /\ (forall payload,
          ~ In (Message.id payload) (map Message.id loaded) ->
          onInsert payload loaded = loaded ++ [payload])
    /\ (forall pushes m,
          In m loaded \/ In m pushes ->
          occurrences (Message.id m) (pushed pushes loaded) = 1)
    /\ (forall u acts w,
          messages (view w) = loaded ->
          Forall from_store acts ->
          distinct_ids (messages (view (fst (run u acts w))))).
Proof.
  intros loaded Hl. repeat split.
  - intros payload. apply onInsert_present.
  - intros payload. apply onInsert_absent.
  - intros pushes m Hm. apply occurrences_once.
    + now apply pushed_distinct.
    + destruct Hm as [Hm|Hm].
      * apply pushed_keeps. now apply in_map.
      * now apply pushed_has.
  - intros u acts w E Ha. apply run_distinct; [exact Ha|]. now rewrite E.
Qed.

End PushFacts.

(** ** Sending *)

Section TrimFacts.

Lemma trimStart_blank (s : jsstring) :
  forallb JS.isWhiteSpace s = true -> JS.trimStart s = [].
Proof.
  induction s as [|c s IH]; simpl; [reflexivity|].
  destruct (JS.isWhiteSpace c); simpl; [exact IH | discriminate].
Qed.

Lemma trimStart_head (s : jsstring) :
  JS.trimStart s = []
  \/ exists c rest, JS.trimStart s = c :: rest /\ JS.isWhiteSpace c = false.
Proof.
  induction s as [|c s IH]; simpl; [now left|].
  destruct (JS.isWhiteSpace c) eqn:E; [exact IH|].
  right. eauto.
Qed.

Lemma trimStart_nil_blank (s : jsstring) :
  JS.trimStart s = [] -> forallb JS.isWhiteSpace s = true.
Proof.
  induction s as [|c s IH]; simpl; [reflexivity|].
  destruct (JS.isWhiteSpace c); simpl; [exact IH | discriminate].
Qed.

Lemma forallb_rev_blank (s : jsstring) :
  forallb JS.isWhiteSpace (rev s) = true -> forallb JS.isWhiteSpace s = true.
Proof.
  rewrite !forallb_forall. intros H c Hc. apply H. now apply in_rev in Hc.
Qed.

(** The trimmed form is empty exactly for the empty and the
    white-space-only texts. *)
Lemma trim_empty_iff (s : jsstring) :
  JS.trim s = [] <-> forallb JS.isWhiteSpace s = true.
Proof.
  unfold JS.trim, JS.trimEnd. split.
  - intros H.
    assert (H1 : JS.trimStart (rev (JS.trimStart s)) = []).
    { destruct (JS.trimStart (rev (JS.trimStart s))) as [|c l]; [reflexivity|].
      simpl in H. destruct (rev l); discriminate. }
    apply trimStart_nil_blank, forallb_rev_blank in H1.
    apply trimStart_nil_blank.
    destruct (trimStart_head s) as [E|[c [rest [E Hc]]]]; [exact E|].
    rewrite E in H1. simpl in H1. rewrite Hc in H1. discriminate.
  - intros H. rewrite (trimStart_blank _ H). reflexivity.
Qed.

End TrimFacts.

Section SendFacts.

Import Messages.

(** Claim C6, as stated, fails: a white-space-only text makes the send
    return without surfacing any error. *)
Lemma send_blank_no_error :
  ~ surfaces_error
      (snd (handleSendMessage (Sample.accepts "m9" 900) (Some Sample.alice)
                              (Sample.typed Sample.blank) Sample.empty_db)).
Proof. intros [e [[] _]]. Qed.

(** Claim C6, amended: for a text whose trimmed form is empty (empty or
    white space only) the send returns silently, with no error, no
    request to the store and no stored record; for any other text, with a
    conversation selected, a current user and a store that accepts the
    insert, it inserts one message carrying the trimmed text, clears the
    input and returns with the displayed list untouched (the message is
    shown only when the push arrives). *)
Theorem send_blank_or_insert :
  forall (ans : SendAnswer) (u : option uuid) (s : State) (d : Store.t),
    (JS.trim (inputValue s) = [] <-> forallb JS.isWhiteSpace (inputValue s) = true)
    /\ (JS.trim (inputValue s) = [] ->
        handleSendMessage ans u s d = (s, d, []))
    /\ (JS.trim (inputValue s) <> [] ->
        forall me selected,
          u = Some me ->
          JS.truthy_id (Some me) = true ->
          selectedConversation s = Some selected ->
          insertError ans = None ->
          let text := JS.trim (inputValue s) in
          let row := Message.mk (Store.new_id (inserted_as ans))
                                (Store.now (inserted_as ans))
                                (Conversation.id selected) me text in
          handleSendMessage ans u s d
          = (setInputValue [] s, Store.insert_message row d,
             [InsertMessage (Conversation.id selected) me text])
          /\ messages (setInputValue [] s) = messages s).
Proof.
  intros ans u s d. split; [apply trim_empty_iff|]. split.
  - intros E. unfold handleSendMessage. rewrite E. reflexivity.
  - intros Hne me selected -> Hme Hsel Hins text row.
    split; [|reflexivity].
    unfold handleSendMessage.
    destruct (JS.trim (inputValue s)) as [|c l] eqn:T; [congruence|].
    cbn [JS.truthy negb]. rewrite Hsel. cbn iota. rewrite Hme. cbn [negb].
    rewrite Hins. subst row text. try rewrite T. reflexivity.
Qed.

Lemma send_blank_or_insert_witness :
  handleSendMessage (Sample.accepts "m9" 900) (Some Sample.alice)
                    (Sample.typed Sample.blank) Sample.empty_db
  = (Sample.typed Sample.blank, Sample.empty_db, [])
  /\ Store.messages
       (snd (fst (handleSendMessage (Sample.accepts "m9" 900) (Some Sample.alice)
                    (Sample.typed (utf16 "  hello ")) Sample.empty_db)))
     = [Message.mk "m9" 900 "c3" Sample.alice (utf16 "hello")].
Proof.
  split.
  - apply (send_blank_or_insert (Sample.accepts "m9" 900) (Some Sample.alice)
             (Sample.typed Sample.blank) Sample.empty_db).
    reflexivity.
  - destruct (send_blank_or_insert (Sample.accepts "m9" 900) (Some Sample.alice)
                (Sample.typed (utf16 "  hello ")) Sample.empty_db)
      as [_ [_ H]].
    destruct (H ltac:(discriminate) Sample.alice
                (Conversation.spread Sample.c3 Sample.bob)
                eq_refl eq_refl eq_refl eq_refl) as [E _].
    rewrite E. reflexivity.
Defined.

End SendFacts.

(** ** The component as a whole *)

Section ViewFacts.

Import Messages.

Lemma with_view_same (w : World) : with_view (view w) w = w.
Proof. destruct w; reflexivity. Qed.

Lemma cleanup_keeps (w : World) :
  conversations (view (fst (cleanup w))) = conversations (view w)
  /\ selectedConversation (view (fst (cleanup w))) = selectedConversation (view w).
Proof. unfold cleanup. destruct (channel (view w)); split; reflexivity. Qed.

Lemma subscription_effect_keeps (w : World) :
  conversations (view (fst (subscription_effect w))) = conversations (view w)
  /\ selectedConversation (view (fst (subscription_effect w)))
     = selectedConversation (view w).
Proof.
  unfold subscription_effect.
  destruct (cleanup_keeps w) as [Hc Hs].
  destruct (cleanup w) as [w1 ev1]. simpl in Hc, Hs.
  destruct (selectedConversation (view w1)) eqn:E; simpl; rewrite <- Hc, <- Hs;
    split; try reflexivity; now rewrite E.
Qed.

Lemma setSelectedConversation_keeps (v : option Conversation.t) (w : World) :
  conversations (view (fst (setSelectedConversation v w))) = conversations (view w)
  /\ selectedConversation (view (fst (setSelectedConversation v w))) = v.
Proof.
  unfold setSelectedConversation.
  destruct (subscription_effect_keeps (with_view (setSelected v (view w)) w))
    as [Hc Hs].
  rewrite Hc, Hs. split; reflexivity.
Qed.

Lemma open_initial_keeps (w : World) :
  conversations (view (fst (open_initial w))) = conversations (view w)
  /\ (selectedConversation (view (fst (open_initial w)))
      = selectedConversation (view w)
      \/ exists c, In c (conversations (view w))
                   /\ selectedConversation (view (fst (open_initial w))) = Some c).
Proof.
  unfold open_initial.
  destruct (initialConversationId (view w)) as [wanted|]; [|split; [|left]; reflexivity].
  destruct ((wanted =? "")%string || _); [split; [|left]; reflexivity|].
  destruct (find _ _) as [found|] eqn:F; [|split; [|left]; reflexivity].
  destruct (setSelectedConversation_keeps (Some found) w) as [Hc Hs].
  split; [exact Hc|]. right. exists found. split; [|exact Hs].
  now destruct (find_some _ _ F).
Qed.

Lemma deliver_fold_keeps (payload : Message.t) (chs : list Channel)
      (acc : State * list Event) :
  let r := fold_left (deliver_to payload) chs acc in
  conversations (fst r) = conversations (fst acc)
  /\ selectedConversation (fst r) = selectedConversation (fst acc)
  /\ channel (fst r) = channel (fst acc)
  /\ mounted (fst r) = mounted (fst acc).
Proof.
  revert acc. induction chs as [|ch chs IH]; intros acc; simpl; [repeat split|].
  destruct (IH (deliver_to payload acc ch)) as [Hc [Hs [Hch Hm]]].
  rewrite Hc, Hs, Hch, Hm. unfold deliver_to.
  destruct (filter_conversation_id ch =? Message.conversation_id payload)%string;
    repeat split.
Qed.

Lemma handleSendMessage_keeps ans u s d :
  let s1 := fst (fst (handleSendMessage ans u s d)) in
  conversations s1 = conversations s
  /\ selectedConversation s1 = selectedConversation s
  /\ channel s1 = channel s
  /\ mounted s1 = mounted s.
Proof.
  cbv zeta. unfold handleSendMessage.
  destruct (negb (JS.truthy (JS.trim (inputValue s)))); [repeat split|].
  destruct (selectedConversation s) as [selected|] eqn:E; [|simpl; auto].
  destruct u as [me|]; [|simpl; auto].
  destruct (negb (JS.truthy_id (Some me))); [simpl; auto|].
  destruct (insertError ans); simpl; auto.
Qed.

(** What a step does to the listed and the selected conversation. *)
Lemma step_view_shape (u : uuid) (a : Action) (w : World) :
  let w' := fst (step (Some u) a w) in
  (conversations (view w') = conversations (view w)
   \/ exists tbl,
        a = ConversationsAnswered None tbl
        /\ conversations (view w')
           = grouped u (Store.select_conversations_newest_first u tbl))
  /\ (selectedConversation (view w') = selectedConversation (view w)
      \/ selectedConversation (view w') = None
      \/ exists c, In c (conversations (view w'))
                   /\ selectedConversation (view w') = Some c).
Proof.
  destruct a; unfold step.
  9: { destruct (negb (mounted (view w))); [split; left; reflexivity|].
       destruct (cleanup_keeps w) as [Hc Hs].
       destruct (cleanup w) as [w1 ev1]. simpl in *.
       split; left; assumption. }
  8: { unfold dispatch. simpl.
       destruct (deliver_fold_keeps payload (joined w) (view w, [])) as [Hc [Hs _]].
       split; left; assumption. }
  all: destruct (negb (mounted (view w))); [split; left; reflexivity|].
  - destruct (JS.truthy_id (Some u)); [|split; left; reflexivity].
    destruct error as [err|]; simpl.
    + destruct (PostgrestError.code err =? "42P01")%string; split; left; reflexivity.
    + match goal with
      | |- context [open_initial ?x] =>
          destruct (open_initial_keeps x) as [Hc Hs];
          destruct (open_initial x) as [w2 ev2]
      end.
      simpl in *. split.
      * right. exists tbl. split; [reflexivity | exact Hc].
      * destruct Hs as [Hs|[c [Hin Hs]]]; [now left|].
        right. right. exists c. rewrite Hc. split; assumption.
  - destruct error as [err|]; simpl; split; left; reflexivity.
  - destruct (nth_error (conversations (view w)) n) as [chat|] eqn:E;
      [|split; left; reflexivity].
    destruct (setSelectedConversation_keeps (Some chat) w) as [Hc Hs].
    split; [now left|]. right. right. exists chat. rewrite Hc.
    split; [|exact Hs]. eapply nth_error_In, E.
  - destruct (setSelectedConversation_keeps None w) as [Hc Hs].
    split; [now left|]. right. now left.
  - split; left; reflexivity.
  - split; left; reflexivity.
  - destruct (handleSendMessage_keeps ans (Some u) (view w) (db w)) as [Hc [Hs _]].
    destruct (handleSendMessage ans (Some u) (view w) (db w)) as [[s1 db1] ev1].
    simpl in *. split; left; assumption.
Qed.

Lemma drawn_from_more (u : uuid) (T T' : list (list ConvRow.t)) (c : Conversation.t) :
  incl T T' -> drawn_from u T c -> drawn_from u T' c.
Proof.
  intros Hincl [tbl [row [Ht H]]]. exists tbl, row. split; [now apply Hincl | exact H].
Qed.

Lemma grouped_drawn (u : uuid) (tbl : list ConvRow.t) (c : Conversation.t) :
  In c (grouped u (Store.select_conversations_newest_first u tbl)) ->
  drawn_from u [tbl] c.
Proof.
  intros Hin. destruct (grouped_origin _ _ _ Hin) as [pre [row [post [E [-> _]]]]].
  assert (Hrow : In row (filter (Store.is_participant u) tbl)).
  { eapply Permutation_in; [apply order_perm|].
    unfold Store.select_conversations_newest_first in E. rewrite E.
    apply in_or_app. right. now left. }
  apply filter_In in Hrow. destruct Hrow as [Hrow Hp].
  exists tbl, row. repeat split; [now left | exact Hrow | exact Hp].
Qed.

Lemma step_drawn (u : uuid) (a : Action) (w : World) (T : list (list ConvRow.t)) :
  view_drawn_from u T w ->
  view_drawn_from u (T ++ answered_tables [a]) (fst (step (Some u) a w)).
Proof.
  intros [Hl Hs].
  destruct (step_view_shape u a w) as [Hc Hsel].
  assert (Hl' : forall c, In c (conversations (view (fst (step (Some u) a w)))) ->
                          drawn_from u (T ++ answered_tables [a]) c).
  { intros c Hin. destruct Hc as [Hc|[tbl [-> Hc]]].
    - rewrite Hc in Hin. eapply drawn_from_more; [|exact (Hl c Hin)].
      apply incl_appl, incl_refl.
    - rewrite Hc in Hin. eapply drawn_from_more; [|exact (grouped_drawn _ _ _ Hin)].
      simpl. apply incl_appr, incl_refl. }
  split; [exact Hl'|].
  intros c Hc'. destruct Hsel as [E|[E|[c' [Hin E]]]].
  - rewrite E in Hc'. eapply drawn_from_more; [|exact (Hs c Hc')].
    apply incl_appl, incl_refl.
  - congruence.
  - rewrite E in Hc'. injection Hc' as <-. now apply Hl'.
Qed.

Lemma answered_tables_app (l l' : list Action) :
  answered_tables (l ++ l') = answered_tables l ++ answered_tables l'.
Proof. unfold answered_tables. apply flat_map_app. Qed.

Lemma run_drawn (u : uuid) (acts : list Action) (w : World)
      (T : list (list ConvRow.t)) :
  view_drawn_from u T w ->
  view_drawn_from u (T ++ answered_tables acts) (fst (run (Some u) acts w)).
Proof.
  revert w T. induction acts as [|a acts IH]; intros w T H.
  - simpl. now rewrite app_nil_r.
  - change (a :: acts) with ([a] ++ acts) at 1.
    rewrite (answered_tables_app [a] acts), app_assoc. cbn [run].
    pose proof (step_drawn u a w T H) as H1.
    destruct (step (Some u) a w) as [w1 ev1]. cbn [fst] in H1.
    specialize (IH w1 _ H1).
    destruct (run (Some u) acts w1) as [w2 ev2]. exact IH.
Qed.

Lemma drawn_from_participant (u : uuid) (T : list (list ConvRow.t))
      (c : Conversation.t) :
  drawn_from u T c ->
  Conversation.buyer_id c = u \/ Conversation.seller_id c = u.
Proof.
  intros [tbl [row [_ [_ [Hp ->]]]]]. simpl.
  unfold Store.is_participant in Hp.
  apply orb_true_iff in Hp. rewrite !String.eqb_eq in Hp. exact Hp.
Qed.

(** Claim C9: in every run of the view of user [u], a send inserts nothing
    or inserts one message whose sender is [u] into the selected
    conversation, and that conversation is the copy of a row the store
    returned for [u] as buyer or seller: the sender is one of its two
    participants. *)
Theorem send_sender_is_participant :
  forall (u : uuid) (initial : option uuid) (db0 : Store.t)
         (acts : list Action) (ans : SendAnswer),
    let w := fst (run (Some u) acts (mount initial (Some u) db0)) in
    let r := handleSendMessage ans (Some u) (view w) (db w) in
    snd (fst r) = db w
    \/ exists selected m,
         selectedConversation (view w) = Some selected
         /\ snd (fst r) = Store.insert_message m (db w)
         /\ Message.conversation_id m = Conversation.id selected
         /\ Message.sender_id m = u
         /\ (Conversation.buyer_id selected = u
             \/ Conversation.seller_id selected = u)
         /\ drawn_from u (answered_tables acts) selected.
Proof.
  intros u initial db0 acts ans w r.
  assert (Hinv : view_drawn_from u (answered_tables acts) w).
  { apply (run_drawn u acts (mount initial (Some u) db0) []).
    split; [intros c [] | intros c; discriminate]. }
  subst r. unfold handleSendMessage.
  destruct (negb (JS.truthy _)); [now left|].
  destruct (selectedConversation (view w)) as [selected|] eqn:Hsel; [|now left].
  destruct (negb (JS.truthy_id (Some u))); [now left|].
  destruct (insertError ans); [now left|].
  right. simpl. eexists selected, _.
  destruct Hinv as [_ Hs]. specialize (Hs selected Hsel).
  repeat split; try reflexivity; [|exact Hs].
  eapply drawn_from_participant, Hs.
Qed.

End ViewFacts.

(** ** Releasing the subscription *)

Section SubscriptionFacts.

Import Messages.

Lemma same_subscription_coherent (w w' : World) :
  same_subscription w w' -> coherent w -> coherent w'.
Proof.
  intros [Hj [Hc [Hn Hm]]] [Cj Cs]. unfold coherent.
  rewrite Hj, Hc, Hn, Hm. split; assumption.
Qed.

Lemma same_subscription_retired (h : nat) (w w' : World) :
  same_subscription w w' -> retired h w -> retired h w'.
Proof.
  intros [Hj [_ [Hn _]]] [Rn Rj]. unfold retired. rewrite Hj, Hn. split; assumption.
Qed.

Lemma callbacks_of_app (h : nat) (t t' : list Event) :
  callbacks_of h (t ++ t') = callbacks_of h t ++ callbacks_of h t'.
Proof. apply filter_app. Qed.

(** *** Coherence *)

Lemma cleanup_coherent (w : World) :
  coherent w ->
  joined (fst (cleanup w)) = []
  /\ channel (view (fst (cleanup w))) = None
  /\ serial (fst (cleanup w)) = serial w
  /\ mounted (view (fst (cleanup w))) = mounted (view w)
  /\ selectedConversation (view (fst (cleanup w))) = selectedConversation (view w).
Proof.
  intros [Cj Cs]. unfold cleanup.
  destruct (channel (view w)) as [ch|] eqn:E; simpl.
  - rewrite Cj. simpl. unfold same_channel. rewrite Nat.eqb_refl. simpl.
    repeat split.
  - rewrite E. repeat split. exact Cj.
Qed.

Lemma subscription_effect_coherent (w : World) :
  coherent w -> mounted (view w) = true ->
  coherent (fst (subscription_effect w))
  /\ mounted (view (fst (subscription_effect w))) = true.
Proof.
  intros C M. unfold subscription_effect.
  destruct (cleanup_coherent w C) as [Hj [Hc [Hn [Hm Hs]]]].
  destruct (cleanup w) as [w1 ev1]. simpl in *.
  destruct (selectedConversation (view w1)) as [selected|]; simpl.
  - split; [|congruence]. split; simpl.
    + now rewrite Hj.
    + intros ch E. injection E as <-. simpl. split; [lia | congruence].
  - split; [|congruence]. split.
    + now rewrite Hj, Hc.
    + intros ch E. congruence.
Qed.

Lemma setSelectedConversation_coherent (v : option Conversation.t) (w : World) :
  coherent w -> mounted (view w) = true ->
  coherent (fst (setSelectedConversation v w))
  /\ mounted (view (fst (setSelectedConversation v w))) = true.
Proof.
  intros C M. unfold setSelectedConversation.
  apply subscription_effect_coherent; [|exact M].
  eapply same_subscription_coherent; [|exact C]. repeat split.
Qed.

Lemma open_initial_coherent (w : World) :
  coherent w -> mounted (view w) = true ->
  coherent (fst (open_initial w))
  /\ mounted (view (fst (open_initial w))) = true.
Proof.
  intros C M. unfold open_initial.
  destruct (initialConversationId (view w)) as [wanted|]; [|now split].
  destruct ((wanted =? "")%string || _); [now split|].
  destruct (find _ _) as [found|]; [|now split].
  now apply setSelectedConversation_coherent.
Qed.

Lemma dispatch_same (payload : Message.t) (w : World) :
  same_subscription w (fst (dispatch payload w)).
Proof.
  unfold dispatch. simpl.
  destruct (deliver_fold_keeps payload (joined w) (view w, [])) as [_ [_ [Hc Hm]]].
  repeat split; assumption.
Qed.

Lemma step_coherent (u : option uuid) (a : Action) (w : World) :
  coherent w -> coherent (fst (step u a w)).
Proof.
  intros C. destruct a; unfold step.
  8: { eapply same_subscription_coherent; [apply dispatch_same | exact C]. }
  all: destruct (mounted (view w)) eqn:M; simpl negb; cbv iota; [|exact C].
  - destruct u as [userId|]; [|exact C].
    destruct (JS.truthy_id (Some userId)); [|exact C].
    destruct error as [err|]; simpl.
    + eapply same_subscription_coherent; [|exact C].
      destruct (PostgrestError.code err =? "42P01")%string; repeat split.
    + match goal with
      | |- context [open_initial ?x] =>
          assert (Cx : coherent x)
            by (eapply same_subscription_coherent; [|exact C]; repeat split);
          destruct (open_initial_coherent x Cx M) as [C' _];
          destruct (open_initial x) as [w2 ev2]
      end.
      exact C'.
  - eapply same_subscription_coherent; [|exact C].
    destruct error; repeat split.
  - destruct (nth_error _ n); [|exact C].
    now apply setSelectedConversation_coherent.
  - now apply setSelectedConversation_coherent.
  - eapply same_subscription_coherent; [|exact C]. repeat split.
  - eapply same_subscription_coherent; [|exact C]. repeat split.
  - destruct (handleSendMessage_keeps ans u (view w) (db w)) as [_ [_ [Hc Hm]]].
    destruct (handleSendMessage ans u (view w) (db w)) as [[s1 db1] ev1].
    simpl in *. eapply same_subscription_coherent; [|exact C].
    repeat split; assumption.
  - destruct (cleanup_coherent w C) as [Hj [Hc [Hn [Hm Hs]]]].
    destruct (cleanup w) as [w1 ev1]. simpl in *.
    split; simpl; [now rewrite Hj, Hc|]. intros ch E. congruence.
Qed.

Lemma run_coherent (u : option uuid) (acts : list Action) (w : World) :
  coherent w -> coherent (fst (run u acts w)).
Proof.
  revert w. induction acts as [|a acts IH]; intros w C; simpl; [exact C|].
  pose proof (step_coherent u a w C) as C1.
  destruct (step u a w) as [w1 ev1]. simpl in C1.
  specialize (IH w1 C1). destruct (run u acts w1) as [w2 ev2]. exact IH.
Qed.

Lemma mount_coherent (initial u : option uuid) (db0 : Store.t) :
  coherent (mount initial u db0).
Proof. split; [reflexivity | intros ch E; discriminate]. Qed.

(** *** A retired channel stays silent *)

Lemma cleanup_retired (h : nat) (w : World) :
  retired h w ->
  retired h (fst (cleanup w)) /\ callbacks_of h (snd (cleanup w)) = [].
Proof.
  intros [Rn Rj]. unfold cleanup.
  destruct (channel (view w)) as [ch|]; simpl; [|now repeat split].
  split; [|reflexivity]. split; [exact Rn|]. simpl.
  intros c Hc. apply filter_In in Hc. now apply Rj.
Qed.

Lemma subscription_effect_retired (h : nat) (w : World) :
  retired h w ->
  retired h (fst (subscription_effect w))
  /\ callbacks_of h (snd (subscription_effect w)) = [].
Proof.
  intros R. unfold subscription_effect.
  destruct (cleanup_retired h w R) as [[Rn Rj] Hev].
  destruct (cleanup w) as [w1 ev1]. simpl in *.
  destruct (selectedConversation (view w1)) as [selected|]; simpl.
  - split.
    + split; simpl; [lia|]. intros c Hc. apply in_app_or in Hc.
      destruct Hc as [Hc|[<-|[]]]; [now apply Rj | simpl; lia].
    + rewrite callbacks_of_app, Hev. reflexivity.
  - split; [split; assumption | exact Hev].
Qed.

Lemma setSelectedConversation_retired (h : nat) (v : option Conversation.t)
      (w : World) :
  retired h w ->
  retired h (fst (setSelectedConversation v w))
  /\ callbacks_of h (snd (setSelectedConversation v w)) = [].
Proof.
  intros R. unfold setSelectedConversation.
  apply subscription_effect_retired.
  eapply same_subscription_retired; [|exact R]. repeat split.
Qed.

Lemma open_initial_retired (h : nat) (w : World) :
  retired h w ->
  retired h (fst (open_initial w)) /\ callbacks_of h (snd (open_initial w)) = [].
Proof.
  intros R. unfold open_initial.
  destruct (initialConversationId (view w)) as [wanted|]; [|now split].
  destruct ((wanted =? "")%string || _); [now split|].
  destruct (find _ _) as [found|]; [|now split].
  now apply setSelectedConversation_retired.
Qed.

Lemma deliver_fold_retired (h : nat) (payload : Message.t) (chs : list Channel)
      (acc : State * list Event) :
  (forall c, In c chs -> handle c <> h) ->
  callbacks_of h (snd (fold_left (deliver_to payload) chs acc))
  = callbacks_of h (snd acc).
Proof.
  revert acc. induction chs as [|ch chs IH]; intros acc H; simpl; [reflexivity|].
  rewrite IH by (intros c Hc; apply H; now right).
  unfold deliver_to.
  destruct (filter_conversation_id ch =? Message.conversation_id payload)%string;
    [|reflexivity].
  simpl. rewrite callbacks_of_app. simpl.
  assert (E : (handle ch =? h)%nat = false)
    by (apply Nat.eqb_neq, H; now left).
  rewrite E. apply app_nil_r.
Qed.

Lemma dispatch_retired (h : nat) (payload : Message.t) (w : World) :
  retired h w ->
  retired h (fst (dispatch payload w))
  /\ callbacks_of h (snd (dispatch payload w)) = [].
Proof.
  intros R. split.
  - eapply same_subscription_retired; [apply dispatch_same | exact R].
  - unfold dispatch. simpl. destruct R as [_ Rj].
    now rewrite deliver_fold_retired.
Qed.

Lemma handleSendMessage_trace ans u s d (h : nat) :
  callbacks_of h (snd (handleSendMessage ans u s d)) = [].
Proof.
  unfold handleSendMessage.
  destruct (negb (JS.truthy (JS.trim (inputValue s)))); [reflexivity|].
  destruct (selectedConversation s); [|reflexivity].
  destruct u as [me|]; [|reflexivity].
  destruct (negb (JS.truthy_id (Some me))); [reflexivity|].
  destruct (insertError ans); reflexivity.
Qed.

Lemma step_retired (h : nat) (u : option uuid) (a : Action) (w : World) :
  retired h w ->
  retired h (fst (step u a w)) /\ callbacks_of h (snd (step u a w)) = [].
Proof.
  intros R. destruct a; unfold step.
  8: { now apply dispatch_retired. }
  all: destruct (negb (mounted (view w))); [now split|].
  - destruct u as [userId|]; [|now split].
    destruct (JS.truthy_id (Some userId)); [|now split].
    destruct error as [err|]; simpl.
    + split; [|reflexivity]. eapply same_subscription_retired; [|exact R].
      destruct (PostgrestError.code err =? "42P01")%string; repeat split.
    + match goal with
      | |- context [open_initial ?x] =>
          assert (Rx : retired h x)
            by (eapply same_subscription_retired; [|exact R]; repeat split);
          destruct (open_initial_retired h x Rx) as [R' Hev];
          destruct (open_initial x) as [w2 ev2]
      end.
      simpl in *. split; assumption.
  - destruct error; simpl; (split; [|reflexivity]);
      (eapply same_subscription_retired; [|exact R]); repeat split.
  - destruct (nth_error _ n); [|now split].
    now apply setSelectedConversation_retired.
  - now apply setSelectedConversation_retired.
  - split; [|reflexivity]. eapply same_subscription_retired; [|exact R].
    repeat split.
  - split; [|reflexivity]. eapply same_subscription_retired; [|exact R].
    repeat split.
  - destruct (handleSendMessage_keeps ans u (view w) (db w)) as [_ [_ [Hc Hm]]].
    pose proof (handleSendMessage_trace ans u (view w) (db w) h) as Hev.
    destruct (handleSendMessage ans u (view w) (db w)) as [[s1 db1] ev1].
    simpl in *. split; [|exact Hev].
    eapply same_subscription_retired; [|exact R]. repeat split; assumption.
  - destruct (cleanup_retired h w R) as [R' Hev].
    destruct (cleanup w) as [w1 ev1]. simpl in *. split; [|exact Hev].
    destruct R' as [Rn Rj]. split; assumption.
Qed.

Lemma run_retired (h : nat) (u : option uuid) (acts : list Action) (w : World) :
  retired h w -> callbacks_of h (snd (run u acts w)) = [].
Proof.
  revert w. induction acts as [|a acts IH]; intros w R; simpl; [reflexivity|].
  destruct (step_retired h u a w R) as [R1 Hev1].
  destruct (step u a w) as [w1 ev1]. simpl in *.
  specialize (IH w1 R1). destruct (run u acts w1) as [w2 ev2]. simpl in *.
  rewrite callbacks_of_app, Hev1, IH. reflexivity.
Qed.

Lemma run_deliveries_unsubscribed (u : option uuid) (payloads : list Message.t)
      (w : World) :
  joined w = [] -> run u (map Delivered payloads) w = (w, []).
Proof.
  intros Hj. induction payloads as [|p payloads IH]; simpl; [reflexivity|].
  unfold dispatch. rewrite Hj. simpl. rewrite with_view_same, IH. reflexivity.
Qed.

(** What closing the conversation view does to a coherent world that
    keeps a channel. *)
Lemma release_spec (u : option uuid) (release : Action) (w : World) (ch : Channel) :
  coherent w ->
  channel (view w) = Some ch ->
  release = ClickBack \/ release = Unmount ->
  snd (step u release w) = [RemoveChannel (handle ch)]
  /\ joined (fst (step u release w)) = []
  /\ retired (handle ch) (fst (step u release w)).
Proof.
  intros [Cj Cs] E Hrel. destruct (Cs ch E) as [Hlt M].
  rewrite E in Cj.
  assert (Hcl : cleanup w
                = (with_view (setChannel None (view w)) (removeChannel ch w),
                   [RemoveChannel (handle ch)]))
    by (unfold cleanup; now rewrite E).
  assert (Hrm : joined (removeChannel ch w) = []).
  { unfold removeChannel. simpl. rewrite Cj. simpl. unfold same_channel.
    now rewrite Nat.eqb_refl. }
  destruct Hrel as [-> | ->]; unfold step; rewrite M; simpl negb; cbv iota.
  - unfold setSelectedConversation, subscription_effect.
    assert (Hcl' : cleanup (with_view (setSelected None (view w)) w)
              = (with_view (setChannel None (setSelected None (view w)))
                           (removeChannel ch w),
                 [RemoveChannel (handle ch)])).
    { unfold cleanup. simpl. rewrite E. reflexivity. }
    rewrite Hcl'. simpl. rewrite Cj. simpl. unfold same_channel.
    rewrite Nat.eqb_refl. simpl.
    split; [reflexivity | split; [reflexivity|]].
    split; [exact Hlt|]. intros c Hc.
    change (In c (joined (removeChannel ch w))) in Hc.
    rewrite Hrm in Hc. destruct Hc.
  - rewrite Hcl. simpl. rewrite Cj. simpl. unfold same_channel.
    rewrite Nat.eqb_refl. simpl.
    split; [reflexivity | split; [reflexivity|]].
    split; [exact Hlt|]. intros c Hc.
    change (In c (joined (removeChannel ch w))) in Hc.
    rewrite Hrm in Hc. destruct Hc.
Qed.

(** Claim C7: once the view of a conversation closes (back button or
    unmount) its channel is removed; from then on the delivery of any
    inserted message invokes no callback and leaves the view as it is,
    and whatever happens later, reopening included, the handler of the
    released channel is never invoked again. *)
Theorem released_subscription_is_silent :
  forall (u initial : option uuid) (db0 : Store.t) (before : list Action)
         (ch : Channel) (release : Action),
    let w := fst (run u before (mount initial u db0)) in
    channel (view w) = Some ch ->
    release = ClickBack \/ release = Unmount ->
    let w1 := fst (step u release w) in
    snd (step u release w) = [RemoveChannel (handle ch)]
    /\ joined w1 = []
    /\ (forall payloads, run u (map Delivered payloads) w1 = (w1, []))
    /\ (forall after, callbacks_of (handle ch) (snd (run u after w1)) = []).
Proof.
  intros u initial db0 before ch release w E Hrel w1.
  assert (C : coherent w) by (apply run_coherent, mount_coherent).
  destruct (release_spec u release w ch C E Hrel) as [Hev [Hj R]].
  fold w1 in Hj, R.
  repeat split; try assumption.
  - intros payloads. now apply run_deliveries_unsubscribed.
  - intros after. now apply run_retired.
Qed.

Lemma released_subscription_is_silent_witness :
  run (Some Sample.alice)
      (map Delivered [Sample.hi; Sample.bye])
      (fst (step (Some Sample.alice) ClickBack Sample.chat_open))
  = (fst (step (Some Sample.alice) ClickBack Sample.chat_open), []).
Proof.
  destruct (released_subscription_is_silent
              (Some Sample.alice) None Sample.empty_db Sample.opening
              (mkChannel 0 "c3") ClickBack eq_refl (or_introl eq_refl))
    as [_ [_ [H _]]].
  exact (H [Sample.hi; Sample.bye]).
Defined.

End SubscriptionFacts.

(** ** The list the view shows after its fetch *)

Section FetchedList.

Import Messages.

(** What [fetchConversations] displays from a table of the store: one
    entry per other user, the newest row of each pair, no conversation of
    the user with themselves. *)
Lemma fetched_list (userId : uuid) (tbl : list ConvRow.t) (s : State) :
  let shown := conversations (fst (fetchConversations None userId tbl s)) in
  one_per_user shown
  /\ (forall c, In c shown ->
        Conversation.other_user_id c <> userId
        /\ exists row, In row tbl
                       /\ Store.is_participant userId row = true
                       /\ c = Conversation.spread row (otherId_of userId row))
  /\ (forall c row, In c shown -> In row tbl ->
        Store.is_participant userId row = true ->
        otherId_of userId row = Conversation.other_user_id c ->
        (ConvRow.created_at row <= Conversation.created_at c)%Z).
Proof.
  simpl. split; [|split].
  - apply (fold_group_one_per_user userId _ []). constructor.
  - intros c Hin. split.
    + destruct (grouped_origin _ _ _ Hin) as [pre [row [post [_ [-> [Hne _]]]]]].
      exact Hne.
    + destruct (grouped_drawn _ _ _ Hin) as [tbl' [row [[<-|[]] [Hrow [Hp ->]]]]].
      exists row. repeat split; assumption.
  - intros c row Hin Hrow Hp Hsame.
    eapply grouped_newest; [| exact Hin | | exact Hsame].
    + apply select_conversations_descending.
    + eapply Permutation_in; [apply Permutation_sym, order_perm|].
      apply filter_In. split; assumption.
Qed.

End FetchedList.

(** ** The properties on the sample data *)

Section Samples.

Import Messages.

Example trim_strips_both_ends : JS.trim (utf16 "  hello ") = utf16 "hello".
Proof. reflexivity. Qed.

Example trim_keeps_inner_space : JS.trim (utf16 " a b ") = utf16 "a b".
Proof. reflexivity. Qed.

Example chat_open_has_one_channel :
  joined Sample.chat_open = [mkChannel 0 "c3"]
  /\ selectedConversation (view Sample.chat_open)
     = Some (Conversation.spread Sample.c3 Sample.bob).
Proof. split; reflexivity. Qed.

Example delivery_reaches_open_chat :
  snd (step (Some Sample.alice) (Delivered Sample.hi) Sample.chat_open)
  = [Callback 0 Sample.hi].
Proof. reflexivity. Qed.

Example delivery_for_other_chat_is_filtered :
  snd (step (Some Sample.alice) (Delivered Sample.elsewhere) Sample.chat_open) = [].
Proof. reflexivity. Qed.

Lemma conversation_list_one_per_pair_witness :
  map Conversation.id (grouped Sample.alice Sample.rows_of_alice) = ["c3"; "c1"]%string
  /\ NoDup (map Conversation.other_user_id
                (grouped Sample.alice Sample.rows_of_alice)).
Proof.
  split; [reflexivity|].
  apply (conversation_list_one_per_pair Sample.alice Sample.rows_of_alice).
  unfold Sample.rows_of_alice.
  repeat (constructor; [|repeat (constructor; [simpl; lia|]); constructor]).
  constructor.
Defined.

Lemma load_ascending_witness :
  load "c3" [Sample.bye; Sample.elsewhere; Sample.hello; Sample.hi]
       (view Sample.chat_open)
  = [Sample.hello; Sample.hi; Sample.bye].
Proof.
  apply (load_ascending "c3"
           [Sample.bye; Sample.elsewhere; Sample.hello; Sample.hi]
           (view Sample.chat_open)).
  - simpl.
    apply perm_trans with (l' := [Sample.hello; Sample.bye; Sample.hi]).
    + apply (Permutation_cons_app [Sample.hello] [Sample.hi]).
      apply Permutation_refl.
    + apply perm_skip, perm_swap.
  - simpl. lia.
  - simpl. lia.
Defined.

(** Claim C4, on the code: the claim fails when the answer to the load
    arrives after the push.  Alice has the chat [c3] open and its channel
    joined, so she is subscribed before bob sends.  Bob's message [hi] is
    pushed and shown once.  Then the answer to the load that the selection
    had started arrives, computed on the table as it was before [hi] was
    stored, and [setMessages(data || [])] puts it in place of the list:
    [hi] is shown nowhere, with the subscription still in place.  The
    handler of the push merges by id; the load does not. *)
Theorem late_load_drops_pushed_message :
  let w1 := fst (run (Some Sample.alice) [Delivered Sample.hi] Sample.chat_open) in
  let w2 := fst (run (Some Sample.alice)
                     [Delivered Sample.hi;
                      MessagesAnswered None "c3" [Sample.hello]]
                     Sample.chat_open) in
  joined Sample.chat_open = [mkChannel 0 "c3"]
  /\ Message.conversation_id Sample.hi = "c3"%string
  /\ occurrences (Message.id Sample.hi) (messages (view w1)) = 1
  /\ joined w2 = [mkChannel 0 "c3"]
  /\ messages (view w2) = [Sample.hello]
  /\ occurrences (Message.id Sample.hi) (messages (view w2)) = 0.
Proof. cbv zeta. repeat split. Qed.

Lemma push_observed_once_witness :
  occurrences "m2" (pushed [Sample.hello; Sample.hi; Sample.hi] [Sample.hello]) = 1
  /\ pushed [Sample.hello; Sample.hi; Sample.hi] [Sample.hello]
     = [Sample.hello; Sample.hi].
Proof.
  split; [|reflexivity].
  destruct (push_observed_once [Sample.hello]) as [_ [_ [H _]]].
  - repeat constructor. intros [].
  - apply (H [Sample.hello; Sample.hi; Sample.hi] Sample.hi).
    right. right. now left.
Defined.

End Samples.

(** * Further properties of the components *)

(** ** The resolver: outcomes and the store it leaves *)

Section ResolverMore.

Import ItemDetail.



(** Property X2.
    Sequential calls keep the invariant of the data model: a store with at
    most one conversation per unordered pair of users still has at most
    one per pair after any call, whoever calls and however the store
    answers; rows are only ever appended, one at most, and the messages
    are never touched. *)
Theorem handleMessageSeller_keeps_pairs_unique :
  forall (ans : Answers) (session : option uuid) (item : Item)
         (isM : bool) (db0 : Store.t),
    Flow.pairs_unique (Store.conversations db0) ->
    let r := handleMessageSeller ans session item isM db0 in
    Flow.pairs_unique (Store.conversations (db r))
    /\ (exists added,
          Store.conversations (db r) = Store.conversations db0 ++ added
          /\ List.length added <= 1)
    /\ Store.messages (db r) = Store.messages db0.
Proof.
  intros ans session item isM db0 U r. split; [now apply pairs_unique_kept|].
  destruct (handleMessageSeller_tables ans session item isM db0)
    as [Hm [Hc|[me [created [_ [Hc _]]]]]]; fold r in Hm, Hc; rewrite Hc.
  - split; [|exact Hm]. exists []. rewrite app_nil_r. split; [reflexivity | simpl; lia].
  - split; [|exact Hm]. exists [created]. split; [reflexivity | simpl; lia].
Qed.

Lemma handleMessageSeller_keeps_pairs_unique_witness :
  Flow.pairs_unique
    (Store.conversations
       (db (handleMessageSeller
              (mkAnswers None None (Store.mk_assigned "c9" 90) ItemDetail.table_order)
              (Some Sample.alice) (mkItem "lamp" Sample.bob) false
              Sample.empty_db))).
Proof.
  apply (handleMessageSeller_keeps_pairs_unique
           (mkAnswers None None (Store.mk_assigned "c9" 90) ItemDetail.table_order)
           (Some Sample.alice) (mkItem "lamp" Sample.bob) false
           Sample.empty_db).
  intros x y. simpl. lia.
Defined.

(** Property X3.
    The Message Seller button is rendered only for a viewer who is not the
    seller, so a conversation created through it never has the same user
    on both sides. *)
Theorem message_button_never_self_conversation :
  forall (ans : Answers) (session : option uuid) (item : Item)
         (isM : bool) (db0 : Store.t),
    Listings.button session item = Listings.MessageSeller ->
    let r := handleMessageSeller ans session item isM db0 in
    forall c, In c (Store.conversations (db r)) ->
              In c (Store.conversations db0)
              \/ ConvRow.buyer_id c <> ConvRow.seller_id c.
Proof.
  intros ans session item isM db0 Hbutton r c Hin.
  destruct (handleMessageSeller_tables ans session item isM db0)
    as [_ [Hc|[me [created [-> [Hc [Hb [Hs _]]]]]]]]; fold r in Hc;
    rewrite Hc in Hin; [now left|].
  apply in_app_or in Hin. destruct Hin as [Hin|[<-|[]]]; [now left|].
  right. rewrite Hb, Hs.
  unfold Listings.button, Listings.isOwner in Hbutton.
  destruct (me =? item_seller_id item)%string eqn:E; [discriminate|].
  now apply String.eqb_neq.
Qed.

Lemma message_button_never_self_conversation_witness :
  Forall (fun c => ConvRow.buyer_id c <> ConvRow.seller_id c)
         (Store.conversations
            (db (handleMessageSeller
                   (mkAnswers None None (Store.mk_assigned "c9" 90) ItemDetail.table_order)
                   (Some Sample.alice) (mkItem "lamp" Sample.bob) false
                   Sample.empty_db))).
Proof.
  apply Forall_forall. intros c Hin.
  destruct (message_button_never_self_conversation
              (mkAnswers None None (Store.mk_assigned "c9" 90) ItemDetail.table_order)
              (Some Sample.alice) (mkItem "lamp" Sample.bob) false
              Sample.empty_db eq_refl c Hin) as [[]|H].
  exact H.
Defined.

End ResolverMore.

(** ** The photo carousel *)

Section CarouselFacts.

Import Carousel.

Lemma handleNext_in_range (len p : Z) :
  (0 <= p < len)%Z ->
  exists q, handleNext len (Some p) = Some q /\ (0 <= q < len)%Z.
Proof.
  intros H. unfold handleNext.
  destruct (len =? 0)%Z eqn:E; [apply Z.eqb_eq in E; lia|].
  eexists. split; [reflexivity|]. apply Z.rem_bound_pos; lia.
Qed.

Lemma handlePrev_in_range (len p : Z) :
  (0 <= p < len)%Z ->
  exists q, handlePrev len (Some p) = Some q /\ (0 <= q < len)%Z.
Proof.
  intros H. unfold handlePrev.
  destruct (len =? 0)%Z eqn:E; [apply Z.eqb_eq in E; lia|].
  eexists. split; [reflexivity|]. apply Z.rem_bound_pos; lia.
Qed.

Lemma clicks_in_range (len : Z) (cs : list Click) (p : Z) :
  (0 <= p < len)%Z ->
  exists q, fold_left (click len) cs (Some p) = Some q /\ (0 <= q < len)%Z.
Proof.
  revert p. induction cs as [|c cs IH]; intros p H; [simpl; eauto|].
  destruct c; cbn [fold_left click].
  - destruct (handleNext_in_range len p H) as [q [-> Hq]]. now apply IH.
  - destruct (handlePrev_in_range len p H) as [q [-> Hq]]. now apply IH.
Qed.

(** Property X4.
    With at least one photo the carousel always has a photo to show: from
    index 0, any series of next and previous clicks leaves an index inside
    the list. *)
Theorem carousel_always_shows_a_photo :
  forall (A : Type) (photos : list A) (cs : list Click),
    photos <> [] ->
    exists i photo,
      clicks (Z.of_nat (List.length photos)) cs = Some i
      /\ (0 <= i < Z.of_nat (List.length photos))%Z
      /\ shown photos (Some i) = Some photo.
Proof.
  intros A photos cs Hne.
  assert (Hlen : (0 < Z.of_nat (List.length photos))%Z)
    by (destruct photos; [congruence | simpl; lia]).
  destruct (clicks_in_range (Z.of_nat (List.length photos)) cs 0) as [i [E Hi]];
    [lia|].
  destruct (nth_error photos (Z.to_nat i)) as [photo|] eqn:N.
  - exists i, photo. repeat split; try assumption; try lia.
    unfold shown. destruct (i <? 0)%Z eqn:L; [apply Z.ltb_lt in L; lia | exact N].
  - apply nth_error_None in N. lia.
Qed.

Lemma carousel_always_shows_a_photo_witness :
  exists i photo,
    clicks 3 [Prev; Prev; Next; Prev] = Some i
    /\ shown ["a"; "b"; "c"]%string (Some i) = Some photo
    /\ photo = "b"%string.
Proof.
  destruct (carousel_always_shows_a_photo string ["a"; "b"; "c"]%string
              [Prev; Prev; Next; Prev]) as [i [photo [E [Hi Hs]]]].
  - discriminate.
  - exists i, photo. split; [exact E | split; [exact Hs|]].
    vm_compute in E. injection E as <-. vm_compute in Hs. congruence.
Defined.

(** Property X5.
    Next and previous undo each other on every index of the list, and as
    many next clicks as there are photos come back to the start. *)
Theorem carousel_next_prev_inverse :
  forall (len p : Z),
    (0 <= p < len)%Z ->
    handlePrev len (handleNext len (Some p)) = Some p
    /\ handleNext len (handlePrev len (Some p)) = Some p
    /\ fold_left (click len) (repeat Next (Z.to_nat len)) (Some p) = Some p.
Proof.
  intros len p H.
  assert (E0 : (len =? 0)%Z = false) by (apply Z.eqb_neq; lia).
  assert (Hrem : forall a, (0 <= a)%Z -> Z.rem a len = (a mod len)%Z)
    by (intros a Ha; apply Z.rem_mod_nonneg; lia).
  split; [|split].
  - unfold handleNext, handlePrev. rewrite E0. f_equal.
    rewrite (Hrem (p + 1)%Z) by lia.
    assert (0 <= (p + 1) mod len < len)%Z by (apply Z.mod_pos_bound; lia).
    rewrite Hrem by lia.
    replace ((p + 1) mod len - 1 + len)%Z with ((p + 1) mod len + (len - 1))%Z by lia.
    rewrite Zplus_mod_idemp_l.
    replace (p + 1 + (len - 1))%Z with (p + 1 * len)%Z by lia.
    rewrite Z_mod_plus_full. apply Z.mod_small. lia.
  - unfold handleNext, handlePrev. rewrite E0. f_equal.
    rewrite (Hrem (p - 1 + len)%Z) by lia.
    assert (0 <= (p - 1 + len) mod len < len)%Z by (apply Z.mod_pos_bound; lia).
    rewrite Hrem by lia.
    rewrite Zplus_mod_idemp_l.
    replace (p - 1 + len + 1)%Z with (p + 1 * len)%Z by lia.
    rewrite Z_mod_plus_full. apply Z.mod_small. lia.
  - assert (G : forall n q, (0 <= q < len)%Z ->
                fold_left (click len) (repeat Next n) (Some q)
                = Some ((q + Z.of_nat n) mod len)%Z).
    { induction n as [|n IH]; intros q Hq.
      - simpl. rewrite Z.add_0_r. f_equal. symmetry. apply Z.mod_small. lia.
      - cbn [repeat fold_left click]. unfold handleNext at 1. rewrite E0.
        rewrite Hrem by lia.
        rewrite IH by (apply Z.mod_pos_bound; lia).
        f_equal. rewrite Zplus_mod_idemp_l. f_equal. lia. }
    rewrite G by exact H. rewrite Z2Nat.id by lia.
    replace (p + len)%Z with (p + 1 * len)%Z by lia.
    rewrite Z_mod_plus_full. f_equal. apply Z.mod_small. lia.
Qed.

Lemma carousel_next_prev_inverse_witness :
  handlePrev 3 (handleNext 3 (Some 2%Z)) = Some 2%Z.
Proof.
  apply (carousel_next_prev_inverse 3 2). lia.
Defined.

End CarouselFacts.

(** ** Favourites *)

Section FavoritesFacts.

Import Favorites.

Lemma filter_negb_none {A : Type} (p : A -> bool) (l : list A) :
  filter p (filter (fun x => negb (p x)) l) = [].
Proof.
  induction l as [|x l IH]; simpl; [reflexivity|].
  destruct (p x) eqn:E; simpl; [exact IH|]. rewrite E. exact IH.
Qed.

Lemma filter_none_all {A : Type} (p : A -> bool) (l : list A) :
  filter p l = [] -> filter (fun x => negb (p x)) l = l.
Proof.
  induction l as [|x l IH]; simpl; [reflexivity|].
  destruct (p x); simpl; [discriminate|]. intros H. f_equal. now apply IH.
Qed.

Lemma filter_negb_idem {A : Type} (p : A -> bool) (l : list A) :
  filter (fun x => negb (p x)) (filter (fun x => negb (p x)) l)
  = filter (fun x => negb (p x)) l.
Proof.
  induction l as [|x l IH]; simpl; [reflexivity|].
  destruct (p x) eqn:E; simpl; [exact IH|]. rewrite E. simpl. now f_equal.
Qed.

Lemma length_nil_iff {A : Type} (l : list A) : List.length l = 0 -> l = [].
Proof. destruct l; [reflexivity | discriminate]. Qed.

Lemma checkFavorite_served (me item_id : uuid) (b : bool) (tbl : list Row) :
  JS.truthy_id (Some me) = true ->
  checkFavorite Served (Some me) item_id b tbl
  = (List.length (filter (is_favorite me item_id) tbl) =? 1)%nat.
Proof.
  intros Hme. unfold checkFavorite. rewrite Hme. simpl.
  destruct (filter (is_favorite me item_id) tbl) as [|r [|r' l]]; reflexivity.
Qed.

(** Property X6.
    A toggle the store carries out keeps heart and store in agreement:
    starting from agreement, the heart flips, the store holds the
    favourite exactly when the heart is filled, a reload through
    [checkFavorite] shows the same heart, and the favourites of other
    users and listings are untouched. *)
Theorem toggleFavorite_keeps_agreement :
  forall (ans : Answer) (notify : bool) (me item_id : uuid)
         (isFavorited0 : bool) (tbl : list Row),
    JS.truthy_id (Some me) = true ->
    outcome ans = Served ->
    agree me item_id isFavorited0 tbl ->
    let r := toggleFavorite ans notify (Some me) item_id isFavorited0 tbl in
    isFavorited r = negb isFavorited0
    /\ agree me item_id (isFavorited r) (favorites r)
    /\ (forall b, checkFavorite Served (Some me) item_id b (favorites r)
                  = isFavorited r)
    /\ filter (fun row => negb (is_favorite me item_id row)) (favorites r)
       = filter (fun row => negb (is_favorite me item_id row)) tbl.
Proof.
  intros ans notify me item_id isFav tbl Hme Hout Hagree r.
  assert (Hr : isFavorited r = negb isFav
               /\ agree me item_id (isFavorited r) (favorites r)
               /\ filter (fun row => negb (is_favorite me item_id row)) (favorites r)
                  = filter (fun row => negb (is_favorite me item_id row)) tbl).
  { subst r. unfold toggleFavorite. rewrite Hme, Hout. simpl.
    unfold agree in *. destruct isFav; simpl.
    - rewrite filter_negb_none, filter_negb_idem. repeat split.
    - rewrite !filter_app. simpl.
      unfold is_favorite at 2 4. simpl. rewrite !String.eqb_refl. simpl.
      rewrite length_app, Hagree, app_nil_r. repeat split. }
  destruct Hr as [H1 [H2 H3]]. repeat split; try assumption.
  intros b. rewrite checkFavorite_served by exact Hme.
  unfold agree in H2. rewrite H2. now destruct (isFavorited r).
Qed.

Lemma toggleFavorite_keeps_agreement_witness :
  favorites (toggleFavorite (mkAnswer Served "f1") false (Some Sample.alice)
                            "lamp" false [mkRow "f0" Sample.bob "lamp"])
  = [mkRow "f0" Sample.bob "lamp"; mkRow "f1" Sample.alice "lamp"]
  /\ checkFavorite Served (Some Sample.alice) "lamp" false
       (favorites (toggleFavorite (mkAnswer Served "f1") false
                                  (Some Sample.alice) "lamp" false
                                  [mkRow "f0" Sample.bob "lamp"]))
     = true.
Proof.
  split; [reflexivity|].
  destruct (toggleFavorite_keeps_agreement
              (mkAnswer Served "f1") false Sample.alice "lamp" false
              [mkRow "f0" Sample.bob "lamp"] eq_refl eq_refl eq_refl)
    as [_ [_ [H _]]].
  exact (H false).
Defined.

(** Property X7.
    Favouriting and then unfavouriting, both carried out, leaves the store
    exactly as it was and the heart empty again. *)
Theorem toggleFavorite_on_off :
  forall (ans1 ans2 : Answer) (notify : bool) (me item_id : uuid)
         (tbl : list Row),
    JS.truthy_id (Some me) = true ->
    outcome ans1 = Served ->
    outcome ans2 = Served ->
    agree me item_id false tbl ->
    let r1 := toggleFavorite ans1 notify (Some me) item_id false tbl in
    let r2 := toggleFavorite ans2 notify (Some me) item_id
                             (isFavorited r1) (favorites r1) in
    isFavorited r1 = true
    /\ isFavorited r2 = false
    /\ favorites r2 = tbl.
Proof.
  intros ans1 ans2 notify me item_id tbl Hme H1 H2 Hagree r1 r2.
  subst r2 r1. unfold toggleFavorite. rewrite Hme, H1. simpl. rewrite H2.
  repeat split. simpl. rewrite filter_app. simpl.
  unfold is_favorite at 2. simpl. rewrite !String.eqb_refl. simpl.
  rewrite app_nil_r. apply filter_none_all.
  unfold agree in Hagree. now apply length_nil_iff.
Qed.

Lemma toggleFavorite_on_off_witness :
  favorites
    (toggleFavorite (mkAnswer Served "f2") false (Some Sample.alice) "lamp"
       (isFavorited (toggleFavorite (mkAnswer Served "f1") false
                                    (Some Sample.alice) "lamp" false
                                    [mkRow "f0" Sample.bob "lamp"]))
       (favorites (toggleFavorite (mkAnswer Served "f1") false
                                  (Some Sample.alice) "lamp" false
                                  [mkRow "f0" Sample.bob "lamp"])))
  = [mkRow "f0" Sample.bob "lamp"].
Proof.
  apply (toggleFavorite_on_off (mkAnswer Served "f1") (mkAnswer Served "f2")
           false Sample.alice "lamp" [mkRow "f0" Sample.bob "lamp"]);
    reflexivity.
Defined.

(** Property X8.
    When a toggle fails the store is never changed, but the heart is put
    back only if the request threw.  An error object returned by the
    store is not inspected: the heart stays flipped, in disagreement with
    the store, until a reload through [checkFavorite] shows the stored
    state again. *)
Theorem toggleFavorite_failure :
  forall (ans : Answer) (notify : bool) (me item_id : uuid)
         (isFavorited0 : bool) (tbl : list Row),
    JS.truthy_id (Some me) = true ->
    agree me item_id isFavorited0 tbl ->
    let r := toggleFavorite ans notify (Some me) item_id isFavorited0 tbl in
    (outcome ans = Thrown ->
     isFavorited r = isFavorited0 /\ favorites r = tbl)
    /\ (forall e, outcome ans = Refused e ->
        isFavorited r = negb isFavorited0
        /\ favorites r = tbl
        /\ ~ agree me item_id (isFavorited r) (favorites r)
        /\ checkFavorite Served (Some me) item_id (isFavorited r) (favorites r)
           = isFavorited0).
Proof.
  intros ans notify me item_id isFav tbl Hme Hagree r. split.
  - intros Hout. subst r. unfold toggleFavorite. rewrite Hme, Hout. simpl.
    destruct isFav; simpl; split; reflexivity.
  - intros e Hout.
    assert (Hr : isFavorited r = negb isFav /\ favorites r = tbl).
    { subst r. unfold toggleFavorite. rewrite Hme, Hout. simpl.
      destruct isFav; simpl; split; reflexivity. }
    destruct Hr as [H1 H2]. rewrite H1, H2. repeat split.
    + unfold agree in *. rewrite Hagree. destruct isFav; simpl; lia.
    + rewrite checkFavorite_served by exact Hme.
      unfold agree in Hagree. rewrite Hagree. now destruct isFav.
Qed.

Lemma toggleFavorite_failure_witness :
  isFavorited (toggleFavorite (mkAnswer Thrown "f1") false (Some Sample.alice)
                              "lamp" false [])
  = false.
Proof.
  destruct (toggleFavorite_failure (mkAnswer Thrown "f1") false Sample.alice
              "lamp" false [] eq_refl eq_refl) as [H _].
  exact (proj1 (H eq_refl)).
Defined.

End FavoritesFacts.

(** ** The conversation list: nobody is lost, duplicates are shadowed *)

Section ListMore.

Import Messages.

Lemma fold_group_keeps (u : uuid) (data : list ConvRow.t)
      (acc : list Conversation.t) (c : Conversation.t) :
  In c acc -> In c (fold_left (group u) data acc).
Proof.
  revert acc. induction data as [|r data IH]; intros acc H; simpl; [exact H|].
  apply IH. destruct (group_cases u acc r) as [[-> _]|[-> _]];
    [exact H | apply in_or_app; now left].
Qed.

Lemma fold_group_complete (u : uuid) (data : list ConvRow.t)
      (acc : list Conversation.t) (r : ConvRow.t) :
  In r data -> otherId_of u r <> u ->
  exists c, In c (fold_left (group u) data acc)
            /\ Conversation.other_user_id c = otherId_of u r.
Proof.
  revert acc. induction data as [|conv data IH]; intros acc Hin Hne;
    [destruct Hin|].
  destruct Hin as [<-|Hin]; simpl.
  - destruct (group_cases u acc conv) as [[Eg [Hself|[c [Hc E]]]]|[Eg _]].
    + contradiction.
    + exists c. split; [|exact E]. apply fold_group_keeps. now rewrite Eg.
    + eexists. split.
      * apply fold_group_keeps. rewrite Eg. apply in_or_app. right. now left.
      * reflexivity.
  - now apply IH.
Qed.

Lemma NoDup_map_same {A B : Type} (f : A -> B) (l : list A) (a b : A) :
  NoDup (map f l) -> In a l -> In b l -> f a = f b -> a = b.
Proof.
  induction l as [|x l IH]; simpl; intros Hnd Ha Hb E; [destruct Ha|].
  inversion Hnd as [|? ? Hout Hnd']; subst.
  destruct Ha as [<-|Ha], Hb as [<-|Hb].
  - reflexivity.
  - exfalso. apply Hout. rewrite E. now apply in_map.
  - exfalso. apply Hout. rewrite <- E. now apply in_map.
  - now apply IH.
Qed.

Lemma NoDup_split_unique {A : Type} (l p q p' q' : list A) (x : A) :
  NoDup l -> l = p ++ x :: q -> l = p' ++ x :: q' -> p = p'.
Proof.
  intros Hnd -> E. revert p' E Hnd.
  induction p as [|y p IH]; intros p' E Hnd.
  - destruct p' as [|y' p']; [reflexivity|].
    simpl in *. injection E as <- E. exfalso.
    inversion Hnd as [|? ? Hout _]; subst. apply Hout.
    apply in_or_app. right. now left.
  - destruct p' as [|y' p'].
    + simpl in *. injection E as -> E. exfalso.
      inversion Hnd as [|? ? Hout _]; subst. apply Hout.
      apply in_or_app. right. now left.
    + simpl in *. injection E as <- E. f_equal.
      inversion Hnd; subst. now apply (IH p').
Qed.

Lemma in_newest_first (u : uuid) (tbl : list ConvRow.t) (r : ConvRow.t) :
  In r (Store.select_conversations_newest_first u tbl)
  <-> In r tbl /\ Store.is_participant u r = true.
Proof.
  unfold Store.select_conversations_newest_first.
  rewrite <- filter_In. split; apply Permutation_in;
    [apply order_perm | apply Permutation_sym, order_perm].
Qed.

(** Property X10.
    Every user the current user shares a conversation with appears in the
    list, and appears once: the entry for a partner exists and is the only
    one with that partner. *)
Theorem conversation_list_lists_every_partner :
  forall (u : uuid) (tbl : list ConvRow.t) (s : State) (row : ConvRow.t),
    In row tbl ->
    Store.is_participant u row = true ->
    otherId_of u row <> u ->
    let shown := conversations (fst (fetchConversations None u tbl s)) in
    exists c,
      In c shown
      /\ Conversation.other_user_id c = otherId_of u row
      /\ forall c', In c' shown ->
                    Conversation.other_user_id c' = otherId_of u row ->
                    c' = c.
Proof.
  intros u tbl s row Hin Hp Hne shown. subst shown. simpl.
  destruct (fold_group_complete u (Store.select_conversations_newest_first u tbl)
              [] row) as [c [Hc E]]; [now apply in_newest_first | exact Hne |].
  exists c. repeat split; try assumption.
  intros c' Hc' E'. eapply (NoDup_map_same Conversation.other_user_id).
  - apply (fold_group_one_per_user u
             (Store.select_conversations_newest_first u tbl) []). constructor.
  - exact Hc'.
  - exact Hc.
  - congruence.
Qed.

Lemma conversation_list_lists_every_partner_witness :
  exists c,
    In c (conversations
            (fst (fetchConversations None Sample.alice
                    [Sample.c1; Sample.c2; Sample.c3; Sample.c4]
                    (view Sample.chat_open))))
    /\ Conversation.other_user_id c = Sample.carol.
Proof.
  destruct (conversation_list_lists_every_partner Sample.alice
              [Sample.c1; Sample.c2; Sample.c3; Sample.c4]
              (view Sample.chat_open) Sample.c1)
    as [c [Hc [E _]]].
  - now left.
  - reflexivity.
  - discriminate.
  - exists c. split; [exact Hc | exact E].
Defined.

(** The ids of the fetched rows are distinct when those of the table are. *)
Lemma newest_first_distinct_ids (u : uuid) (tbl : list ConvRow.t) :
  NoDup (map ConvRow.id tbl) ->
  NoDup (map ConvRow.id (Store.select_conversations_newest_first u tbl)).
Proof.
  intros H. unfold Store.select_conversations_newest_first.
  eapply Permutation_NoDup.
  - apply Permutation_sym, Permutation_map, order_perm.
  - clear -H. induction tbl as [|r tbl IH]; simpl; [constructor|].
    inversion H as [|? ? Hout Hnd]; subst.
    destruct (Store.is_participant u r); [|now apply IH].
    simpl. constructor; [|now apply IH].
    intros Hin. apply Hout.
    apply in_map_iff in Hin. destruct Hin as [r' [E Hin]].
    apply filter_In in Hin. apply in_map_iff. exists r'. tauto.
Qed.

(** An older duplicate of a pair never makes it into the list. *)
Lemma older_duplicate_not_listed (u : uuid) (tbl : list ConvRow.t)
      (older newer : ConvRow.t) (c : Conversation.t) :
  NoDup (map ConvRow.id tbl) ->
  In older tbl -> In newer tbl ->
  Store.is_participant u older = true ->
  Store.is_participant u newer = true ->
  otherId_of u older = otherId_of u newer ->
  (ConvRow.created_at older < ConvRow.created_at newer)%Z ->
  In c (grouped u (Store.select_conversations_newest_first u tbl)) ->
  Conversation.id c <> ConvRow.id older.
Proof.
  intros Hnd Ho Hn Hpo Hpn Hsame Hlt Hc Eid.
  set (data := Store.select_conversations_newest_first u tbl) in *.
  assert (Hdo : In older data) by (apply in_newest_first; tauto).
  assert (Hdn : In newer data) by (apply in_newest_first; tauto).
  assert (Hids : NoDup (map ConvRow.id data)) by now apply newest_first_distinct_ids.
  destruct (grouped_origin _ _ _ Hc) as [pre [row [post [E [-> [_ Hpre]]]]]].
  simpl in Eid.
  assert (Hrow : row = older).
  { eapply (NoDup_map_same ConvRow.id); [exact Hids | | exact Hdo | exact Eid].
    rewrite E. apply in_or_app. right. now left. }
  subst row.
  (* [newer] comes before [older] in the data *)
  pose proof (select_conversations_descending u tbl) as Hsorted.
  fold data in Hsorted. rewrite E in Hsorted, Hdn.
  apply in_app_or in Hdn. destruct Hdn as [Hdn|[Hdn|Hdn]].
  - exact (Hpre newer Hdn (eq_sym Hsame)).
  - subst newer. lia.
  - apply StronglySorted_after in Hsorted.
    rewrite Forall_forall in Hsorted. specialize (Hsorted newer Hdn). lia.
Qed.

(** Property X11.
    When the store holds two conversations of the same pair, only the
    newer one is listed, and a view opened on the id of the older one
    opens no conversation: the list arrives, nothing is selected and no
    channel is subscribed. *)
Theorem older_duplicate_is_not_opened :
  forall (u : uuid) (tbl : list ConvRow.t) (older newer : ConvRow.t)
         (dbm : Store.t),
    JS.truthy_id (Some u) = true ->
    NoDup (map ConvRow.id tbl) ->
    In older tbl -> In newer tbl ->
    Store.is_participant u older = true ->
    Store.is_participant u newer = true ->
    otherId_of u older = otherId_of u newer ->
    (ConvRow.created_at older < ConvRow.created_at newer)%Z ->
    let w0 := mount (Some (ConvRow.id older)) (Some u) dbm in
    let r := step (Some u) (ConversationsAnswered None tbl) w0 in
    (forall c, In c (conversations (view (fst r))) ->
               Conversation.id c <> ConvRow.id older)
    /\ selectedConversation (view (fst r)) = None
    /\ joined (fst r) = []
    /\ snd r = [SelectConversations u].
Proof.
  intros u tbl older newer dbm Hu Hnd Ho Hn Hpo Hpn Hsame Hlt w0 r.
  assert (Hnot : forall c,
             In c (grouped u (Store.select_conversations_newest_first u tbl)) ->
             Conversation.id c <> ConvRow.id older)
    by (intros c; now apply (older_duplicate_not_listed u tbl older newer c)).
  assert (Hfind : find (fun c => (Conversation.id c =? ConvRow.id older)%string)
                       (grouped u (Store.select_conversations_newest_first u tbl))
                  = None).
  { destruct (find _ _) as [c|] eqn:F; [|reflexivity].
    destruct (find_some _ _ F) as [Hc E]. apply String.eqb_eq in E.
    destruct (Hnot c Hc E). }
  assert (Er : r = (with_view
                      (setLoading false
                         (setConversations
                            (grouped u (Store.select_conversations_newest_first u tbl))
                            (view w0))) w0,
                    [SelectConversations u])).
  { subst r. unfold step. simpl mounted. cbn [negb]. cbv iota. rewrite Hu.
    unfold fetchConversations. unfold open_initial. simpl initialConversationId.
    cbv iota. simpl conversations. rewrite Hfind.
    destruct ((ConvRow.id older =? "")%string || _); reflexivity. }
  rewrite Er. simpl. repeat split. exact Hnot.
Qed.

Lemma older_duplicate_is_not_opened_witness :
  selectedConversation
    (view (fst (step (Some Sample.alice)
                     (ConversationsAnswered None Sample.rows_of_alice)
                     (mount (Some "c2"%string) (Some Sample.alice) Sample.empty_db))))
  = None.
Proof.
  apply (older_duplicate_is_not_opened Sample.alice Sample.rows_of_alice
           Sample.c2 Sample.c3 Sample.empty_db).
  - reflexivity.
  - repeat constructor; simpl; intuition discriminate.
  - right. now left.
  - now left.
  - reflexivity.
  - reflexivity.
  - reflexivity.
  - simpl. lia.
Defined.

End ListMore.

(** ** From Message Seller to the open chat *)

Section HandOver.

Import Messages.

(** For a partner other than the user, the rows of the pair are the rows
    the user takes part in whose other side is the partner. *)
Lemma between_iff_partner (u p : uuid) (r : ConvRow.t) :
  u <> p ->
  ItemDetail.is_dm_between u p r = true
  <-> Store.is_participant u r = true /\ otherId_of u r = p.
Proof.
  intros Hne. unfold ItemDetail.is_dm_between, Store.is_participant, otherId_of.
  rewrite !orb_true_iff, !andb_true_iff, !String.eqb_eq.
  destruct (ConvRow.buyer_id r =? u)%string eqn:E.
  - apply String.eqb_eq in E. split.
    + intros [[_ H]|[H _]]; [tauto | congruence].
    + intros [_ H]. tauto.
  - apply String.eqb_neq in E. split.
    + intros [[H _]|[H1 H2]]; [contradiction | tauto].
    + intros [[H|H] H']; [contradiction | tauto].
Qed.

(** Selecting a conversation in a view that has no channel yet. *)
Lemma setSelectedConversation_fresh (c : Conversation.t) (w : World) :
  channel (view w) = None ->
  setSelectedConversation (Some c) w
  = (mkWorld (setChannel (Some (mkChannel (serial w) (Conversation.id c)))
                         (setSelected (Some c) (view w)))
             (joined w ++ [mkChannel (serial w) (Conversation.id c)])
             (S (serial w)) (db w),
     [Subscribe (serial w) (Conversation.id c)]).
Proof.
  intros H. unfold setSelectedConversation, subscription_effect, cleanup.
  simpl. rewrite H. reflexivity.
Qed.

(** Property X12.
    The hand-over from the item view to the Messages view.  User X, not
    the seller, presses Message Seller on a listing of Y in a store with
    at most one conversation per pair; the store answers and ids are
    distinct.  [App] then shows the Messages view on the returned id, and
    when the list arrives that view selects the conversation with Y under
    that very id and subscribes one channel filtered on it. *)
Theorem message_seller_opens_the_chat :
  forall (ans : ItemDetail.Answers) (X Y listing : uuid) (db0 : Store.t)
         (app : App.State) (h : uuid),
    X <> Y ->
    JS.truthy_id (Some X) = true ->
    ItemDetail.answered ans ->
    Flow.pairs_unique (Store.conversations db0) ->
    let r := ItemDetail.resolve ans (Some X) Y listing db0 in
    NoDup (map ConvRow.id (Store.conversations (ItemDetail.db r))) ->
    ItemDetail.handle_of r = Some h ->
    h <> ""%string ->
    App.session app = Some X ->
    App.renderContent (App.onMessage (ItemDetail.handle_of r) app)
    = App.MessagesView (Some h)
    /\ let w := fst (step (Some X)
                          (ConversationsAnswered None
                             (Store.conversations (ItemDetail.db r)))
                          (mount (Some h) (Some X) (ItemDetail.db r))) in
       exists c,
         selectedConversation (view w) = Some c
         /\ Conversation.id c = h
         /\ Conversation.other_user_id c = Y
         /\ joined w = [mkChannel 0 h].
Proof.
  intros ans X Y listing db0 app h Hne HX Hans U r Hids Hh Hnonempty Hsession.
  split.
  - rewrite Hh. unfold App.onMessage, App.or_null. simpl JS.truthy_id.
    apply String.eqb_neq in Hnonempty. rewrite Hnonempty. simpl.
    unfold App.renderContent, App.setActiveTab. simpl.
    destruct (negb (App.is_messages (App.activeTab app))); simpl;
      rewrite Hsession; reflexivity.
  - set (tbl := Store.conversations (ItemDetail.db r)) in *.
    set (data := Store.select_conversations_newest_first X tbl).
    destruct (resolve_establishes ans X Y listing db0 HX Hans)
      as [c0 [Hc0 [Hb0 [Hh0 _]]]].
    fold r in Hc0, Hh0. fold tbl in Hc0.
    assert (Eh : ConvRow.id c0 = h) by congruence.
    assert (U' : Flow.pairs_unique tbl) by (apply pairs_unique_kept; exact U).
    destruct (proj1 (between_iff_partner X Y c0 Hne) Hb0) as [Hp0 Ho0].
    (* the entry for Y is the copy of [c0] *)
    assert (Hentry : In (Conversation.spread c0 Y) (grouped X data)).
    { destruct (fold_group_complete X data [] c0) as [c [Hc E]].
      - apply in_newest_first. tauto.
      - congruence.
      - destruct (grouped_origin _ _ _ Hc) as [pre [row [post [Ed [-> _]]]]].
        simpl in E.
        assert (Hrow : In row data) by (rewrite Ed; apply in_or_app; right; now left).
        apply in_newest_first in Hrow. destruct Hrow as [Hrow Hprow].
        assert (Hbrow : ItemDetail.is_dm_between X Y row = true)
          by (apply between_iff_partner; [exact Hne | split; congruence]).
        assert (row = c0)
          by (apply (filter_at_most_one _ tbl row c0 (U' X Y)); assumption).
        subst row. rewrite Ho0 in Hc. exact Hc. }
    (* and it is the only entry with id [h] *)
    assert (Honly : forall c, In c (grouped X data) -> Conversation.id c = h ->
                              c = Conversation.spread c0 Y).
    { intros c Hc Ec.
      destruct (grouped_origin _ _ _ Hc) as [pre [row [post [Ed [-> _]]]]].
      simpl in Ec.
      assert (Hrow : In row data) by (rewrite Ed; apply in_or_app; right; now left).
      apply in_newest_first in Hrow. destruct Hrow as [Hrow _].
      assert (row = c0)
        by (apply (NoDup_map_same ConvRow.id tbl); [exact Hids | | | congruence];
            assumption).
      subst row. now rewrite Ho0. }
    assert (Hfind : find (fun c => (Conversation.id c =? h)%string) (grouped X data)
                    = Some (Conversation.spread c0 Y)).
    { destruct (find_is_some (fun c => (Conversation.id c =? h)%string)
                  (grouped X data) (Conversation.spread c0 Y) Hentry)
        as [c Fc]; [simpl; now apply String.eqb_eq|].
      destruct (find_some _ _ Fc) as [Hc Ec]. apply String.eqb_eq in Ec.
      rewrite Fc. f_equal. now apply Honly. }
    assert (Hlen : (List.length (grouped X data) =? 0)%nat = false).
    { destruct (grouped X data); [destruct Hentry | reflexivity]. }
    cbv zeta. unfold step. simpl mounted. cbn [negb]. cbv iota. rewrite HX.
    unfold fetchConversations. fold data.
    unfold open_initial. simpl initialConversationId. cbv iota.
    simpl conversations. rewrite Hlen, Hfind.
    apply String.eqb_neq in Hnonempty. rewrite Hnonempty. simpl orb. cbv iota.
    rewrite setSelectedConversation_fresh by reflexivity.
    simpl. exists (Conversation.spread c0 Y). simpl. rewrite Eh. repeat split.
Qed.

Lemma message_seller_opens_the_chat_witness :
  exists c,
    selectedConversation
      (view (fst (step (Some Sample.alice)
                       (ConversationsAnswered None
                          (Store.conversations
                             (ItemDetail.db
                                (ItemDetail.resolve
                                   (ItemDetail.mkAnswers None None
                                      (Store.mk_assigned "c9" 90) ItemDetail.table_order)
                                   (Some Sample.alice) Sample.bob "lamp"
                                   (Store.mk [Sample.c1] [])))))
                       (mount (Some "c9"%string) (Some Sample.alice)
                              (ItemDetail.db
                                 (ItemDetail.resolve
                                    (ItemDetail.mkAnswers None None
                                       (Store.mk_assigned "c9" 90) ItemDetail.table_order)
                                    (Some Sample.alice) Sample.bob "lamp"
                                    (Store.mk [Sample.c1] [])))))))
    = Some c
    /\ Conversation.other_user_id c = Sample.bob.
Proof.
  destruct (message_seller_opens_the_chat
              (ItemDetail.mkAnswers None None (Store.mk_assigned "c9" 90) ItemDetail.table_order)
              Sample.alice Sample.bob "lamp" (Store.mk [Sample.c1] [])
              (App.mkState (Some Sample.alice) App.HOME
                           (Some (ItemDetail.mkItem "lamp" Sample.bob)) None 0)
              "c9")
    as [_ [c [Hs [_ [Ho _]]]]].
  - discriminate.
  - reflexivity.
  - split; reflexivity.
  - intros x y. simpl.
    destruct (ItemDetail.is_dm_between x y Sample.c1); simpl; lia.
  - repeat constructor; simpl; intuition discriminate.
  - reflexivity.
  - discriminate.
  - reflexivity.
  - exists c. split; [exact Hs | exact Ho].
Defined.

End HandOver.

(** ** One subscription, for the open conversation *)

Section SubscriptionMore.

Import Messages.

Lemma subscribed_joined (w : World) :
  Flow.subscribed_to_selection w ->
  joined w = match channel (view w) with Some ch => [ch] | None => [] end.
Proof.
  unfold Flow.subscribed_to_selection.
  destruct (mounted (view w)).
  - destruct (selectedConversation (view w)) as [c|].
    + intros [h [-> ->]]. reflexivity.
    + intros [-> ->]. reflexivity.
  - intros [-> ->]. reflexivity.
Qed.

Lemma cleanup_unsubscribes (w : World) :
  joined w = match channel (view w) with Some ch => [ch] | None => [] end ->
  joined (fst (cleanup w)) = []
  /\ channel (view (fst (cleanup w))) = None
  /\ selectedConversation (view (fst (cleanup w))) = selectedConversation (view w)
  /\ mounted (view (fst (cleanup w))) = mounted (view w).
Proof.
  intros Hj. unfold cleanup.
  destruct (channel (view w)) as [ch|] eqn:E; simpl.
  - rewrite Hj. simpl. unfold same_channel. rewrite Nat.eqb_refl. repeat split.
  - rewrite E. repeat split. exact Hj.
Qed.

Lemma setSelectedConversation_subscribes (v : option Conversation.t) (w : World) :
  Flow.subscribed_to_selection w ->
  mounted (view w) = true ->
  Flow.subscribed_to_selection (fst (setSelectedConversation v w)).
Proof.
  intros S M. apply subscribed_joined in S.
  unfold setSelectedConversation, subscription_effect.
  destruct (cleanup_unsubscribes (with_view (setSelected v (view w)) w) S)
    as [Hj [Hc [Hs Hm]]].
  destruct (cleanup (with_view (setSelected v (view w)) w)) as [w1 ev1].
  simpl in Hj, Hc, Hs, Hm.
  unfold Flow.subscribed_to_selection.
  rewrite Hs. destruct v as [c|]; simpl.
  - rewrite Hm, M, Hs, Hj. simpl. eauto.
  - rewrite Hm, M, Hs. split; assumption.
Qed.

Lemma same_fields_subscribed (w w' : World) :
  joined w' = joined w ->
  channel (view w') = channel (view w) ->
  selectedConversation (view w') = selectedConversation (view w) ->
  mounted (view w') = mounted (view w) ->
  Flow.subscribed_to_selection w -> Flow.subscribed_to_selection w'.
Proof.
  unfold Flow.subscribed_to_selection. intros -> -> -> ->. trivial.
Qed.

Lemma open_initial_subscribes (w : World) :
  Flow.subscribed_to_selection w ->
  mounted (view w) = true ->
  Flow.subscribed_to_selection (fst (open_initial w)).
Proof.
  intros S M. unfold open_initial.
  destruct (initialConversationId (view w)) as [wanted|]; [|exact S].
  destruct ((wanted =? "")%string || _); [exact S|].
  destruct (find _ _) as [found|]; [|exact S].
  now apply setSelectedConversation_subscribes.
Qed.

Lemma step_subscribes (u : option uuid) (a : Action) (w : World) :
  Flow.subscribed_to_selection w ->
  Flow.subscribed_to_selection (fst (step u a w)).
Proof.
  intros S. destruct a; unfold step.
  8: { unfold dispatch. simpl.
       destruct (deliver_fold_keeps payload (joined w) (view w, []))
         as [_ [Hs [Hc Hm]]].
       eapply same_fields_subscribed; [| | | | exact S]; simpl;
         try assumption; reflexivity. }
  all: destruct (mounted (view w)) eqn:M; cbn [negb]; cbv iota; [|exact S].
  - destruct u as [userId|]; [|exact S].
    destruct (JS.truthy_id (Some userId)); [|exact S].
    destruct error as [err|]; simpl.
    + eapply same_fields_subscribed; [| | | | exact S];
        destruct (PostgrestError.code err =? "42P01")%string; reflexivity.
    + match goal with
      | |- context [open_initial ?x] =>
          assert (Sx : Flow.subscribed_to_selection x)
            by (eapply same_fields_subscribed; [| | | | exact S]; reflexivity);
          pose proof (open_initial_subscribes x Sx M) as S';
          destruct (open_initial x) as [w2 ev2]
      end.
      exact S'.
  - eapply same_fields_subscribed; [| | | | exact S]; destruct error; reflexivity.
  - destruct (nth_error _ n); [|exact S].
    now apply setSelectedConversation_subscribes.
  - now apply setSelectedConversation_subscribes.
  - eapply same_fields_subscribed; [| | | | exact S]; reflexivity.
  - eapply same_fields_subscribed; [| | | | exact S]; reflexivity.
  - destruct (handleSendMessage_keeps ans u (view w) (db w)) as [_ [Hs [Hc Hm]]].
    destruct (handleSendMessage ans u (view w) (db w)) as [[s1 db1] ev1].
    simpl in *. eapply same_fields_subscribed; [| | | | exact S]; simpl;
      try assumption; reflexivity.
  - destruct (cleanup_unsubscribes w (subscribed_joined w S)) as [Hj [Hc _]].
    destruct (cleanup w) as [w1 ev1]. simpl in *.
    unfold Flow.subscribed_to_selection. simpl. split; assumption.
Qed.

Lemma run_subscribes (u : option uuid) (acts : list Action) (w : World) :
  Flow.subscribed_to_selection w ->
  Flow.subscribed_to_selection (fst (run u acts w)).
Proof.
  revert w. induction acts as [|a acts IH]; intros w S; simpl; [exact S|].
  pose proof (step_subscribes u a w S) as S1.
  destruct (step u a w) as [w1 ev1]. simpl in S1.
  specialize (IH w1 S1). destruct (run u acts w1) as [w2 ev2]. exact IH.
Qed.

Lemma mount_subscribes (initial u : option uuid) (db0 : Store.t) :
  Flow.subscribed_to_selection (mount initial u db0).
Proof. split; reflexivity. Qed.

(** Property X13.
    The view never leaks a subscription: in every state it can reach, a
    mounted view with a conversation open has exactly one joined channel,
    filtered on that conversation; with the list shown, or unmounted, it
    has none. *)
Theorem one_subscription_for_the_open_chat :
  forall (u initial : option uuid) (db0 : Store.t) (acts : list Action),
    let w := fst (run u acts (mount initial u db0)) in
    Flow.subscribed_to_selection w
    /\ List.length (joined w) <= 1
    /\ (forall ch, In ch (joined w) ->
          mounted (view w) = true
          /\ exists selected,
               selectedConversation (view w) = Some selected
               /\ filter_conversation_id ch = Conversation.id selected).
Proof.
  intros u initial db0 acts w.
  assert (S : Flow.subscribed_to_selection w)
    by (apply run_subscribes, mount_subscribes).
  split; [exact S|].
  unfold Flow.subscribed_to_selection in S.
  destruct (mounted (view w)).
  - destruct (selectedConversation (view w)) as [c|].
    + destruct S as [h [-> _]]. split; [simpl; lia|].
      intros ch [<-|[]]. split; [reflexivity|]. exists c. split; reflexivity.
    + destruct S as [-> _]. split; [simpl; lia | intros ch []].
  - destruct S as [-> _]. split; [simpl; lia | intros ch []].
Qed.

(** Property X14.
    What a delivery does in a reachable state: a message of the open
    conversation invokes the handler once, and the list becomes what
    [onInsert] makes of it; a message of any other conversation, or one
    arriving while the list is shown or after an unmount, invokes nothing
    and changes nothing. *)
Theorem delivery_reaches_only_the_open_chat :
  forall (u initial : option uuid) (db0 : Store.t) (acts : list Action)
         (payload : Message.t),
    let w := fst (run u acts (mount initial u db0)) in
    let r := step u (Delivered payload) w in
    (forall selected,
       mounted (view w) = true ->
       selectedConversation (view w) = Some selected ->
       Message.conversation_id payload = Conversation.id selected ->
       exists h,
         snd r = [Callback h payload]
         /\ messages (view (fst r)) = onInsert payload (messages (view w)))
    /\ (mounted (view w) = false
        \/ selectedConversation (view w) = None
        \/ (exists selected,
              selectedConversation (view w) = Some selected
              /\ Message.conversation_id payload <> Conversation.id selected) ->
        r = (w, [])).
Proof.
  intros u initial db0 acts payload w r.
  assert (S : Flow.subscribed_to_selection w)
    by (apply run_subscribes, mount_subscribes).
  unfold Flow.subscribed_to_selection in S. subst r. unfold step, dispatch.
  split.
  - intros selected M Hsel E. rewrite M, Hsel in S. destruct S as [h [Hj _]].
    rewrite Hj. simpl. unfold deliver_to. simpl.
    rewrite E, String.eqb_refl. simpl. exists h. split; reflexivity.
  - intros [M|[Hsel|[selected [Hsel Hne]]]].
    + rewrite M in S. destruct S as [Hj _]. rewrite Hj. simpl.
      now rewrite with_view_same.
    + destruct (mounted (view w)).
      * rewrite Hsel in S. destruct S as [Hj _]. rewrite Hj. simpl.
        now rewrite with_view_same.
      * destruct S as [Hj _]. rewrite Hj. simpl. now rewrite with_view_same.
    + destruct (mounted (view w)).
      * rewrite Hsel in S. destruct S as [h [Hj _]]. rewrite Hj. simpl.
        unfold deliver_to. simpl.
        assert (E : (Conversation.id selected =? Message.conversation_id payload)%string
                    = false) by (apply String.eqb_neq; congruence).
        rewrite E. simpl. now rewrite with_view_same.
      * destruct S as [Hj _]. rewrite Hj. simpl. now rewrite with_view_same.
Qed.

End SubscriptionMore.

(** ** Pushes only append *)

Section PushMore.

Import Messages.

Lemma StronglySorted_drop {A : Type} (R : A -> A -> Prop) (l l' : list A) (x : A) :
  StronglySorted R (l ++ x :: l') -> StronglySorted R (l ++ l').
Proof.
  induction l as [|y l IH]; simpl; intros H.
  - now inversion H.
  - inversion H as [|? ? Hs Hy]; subst. constructor; [now apply IH|].
    rewrite Forall_forall in *. intros z Hz. apply Hy.
    apply in_app_or in Hz. apply in_or_app.
    destruct Hz as [Hz|Hz]; [now left | right; now right].
Qed.

Lemma pushed_extends (pushes prev : list Message.t) :
  exists suffix,
    pushed pushes prev = prev ++ suffix
    /\ forall m, In m suffix -> In m pushes.
Proof.
  unfold pushed. revert prev.
  induction pushes as [|p pushes IH]; intros prev; simpl.
  - exists []. split; [now rewrite app_nil_r | intros m []].
  - destruct (IH (onInsert p prev)) as [suffix [E Hs]]. rewrite E.
    unfold onInsert. destruct (existsb _ prev).
    + exists suffix. split; [reflexivity | intros m Hm; right; now apply Hs].
    + exists (p :: suffix). split; [now rewrite <- app_assoc|].
      intros m [<-|Hm]; [now left | right; now apply Hs].
Qed.

Lemma pushed_ascending (pushes prev : list Message.t) :
  Flow.ascending (prev ++ pushes) -> Flow.ascending (pushed pushes prev).
Proof.
  unfold pushed, Flow.ascending. revert prev.
  induction pushes as [|p pushes IH]; intros prev H; simpl.
  - now rewrite app_nil_r in H.
  - apply IH. unfold onInsert. destruct (existsb _ prev).
    + now apply StronglySorted_drop in H.
    + now rewrite <- app_assoc.
Qed.

(** Property X15.
    Pushes never remove or reorder what is on display: the list after any
    series of pushes is the list before, followed by some of the pushed
    messages; and when the pushes continue the displayed history in
    [created_at] order, the list stays in ascending order. *)
Theorem pushes_only_append :
  forall (prev pushes : list Message.t),
    (exists suffix,
       pushed pushes prev = prev ++ suffix
       /\ forall m, In m suffix -> In m pushes)
    /\ (Flow.ascending (prev ++ pushes) -> Flow.ascending (pushed pushes prev)).
Proof.
  intros prev pushes. split; [apply pushed_extends | apply pushed_ascending].
Qed.

Lemma pushes_only_append_witness :
  Flow.ascending (pushed [Sample.hi; Sample.hi; Sample.bye] [Sample.hello]).
Proof.
  apply (pushes_only_append [Sample.hello] [Sample.hi; Sample.hi; Sample.bye]).
  unfold Flow.ascending.
  repeat (constructor; [|repeat (constructor; [simpl; lia|]); constructor]).
  constructor.
Defined.

End PushMore.

(** ** What is sent *)

Section SendMore.

Import Messages.

Lemma trimStart_split (s : jsstring) :
  exists front, s = front ++ JS.trimStart s /\ Flow.blank front.
Proof.
  unfold Flow.blank. induction s as [|c s IH]; simpl.
  - exists []. split; reflexivity.
  - destruct (JS.isWhiteSpace c) eqn:E.
    + destruct IH as [front [Es Hf]]. exists (c :: front). split.
      * simpl. now f_equal.
      * simpl. now rewrite E.
    + exists []. split; reflexivity.
Qed.

Lemma trimStart_fixed (s : jsstring) :
  (forall c rest, s = c :: rest -> JS.isWhiteSpace c = false) ->
  JS.trimStart s = s.
Proof.
  destruct s as [|c s]; [reflexivity|]. intros H. simpl.
  now rewrite (H c s eq_refl).
Qed.

Lemma forallb_rev_iff (s : jsstring) :
  forallb JS.isWhiteSpace (rev s) = forallb JS.isWhiteSpace s.
Proof.
  destruct (forallb JS.isWhiteSpace s) eqn:E.
  - rewrite forallb_forall in *. intros c Hc. apply E. now apply in_rev.
  - destruct (forallb JS.isWhiteSpace (rev s)) eqn:E'; [|reflexivity].
    apply forallb_rev_blank in E'. congruence.
Qed.

(** The full account of [trim]: the input is white space, then the result,
    then white space, and the result has no white space at either end. *)
Lemma trim_spec (s : jsstring) :
  (exists front back,
     s = front ++ JS.trim s ++ back /\ Flow.blank front /\ Flow.blank back)
  /\ Flow.trimmed (JS.trim s).
Proof.
  unfold JS.trim, JS.trimEnd.
  destruct (trimStart_split s) as [front [Es Hf]].
  destruct (trimStart_split (rev (JS.trimStart s))) as [kcab [Er Hb]].
  set (t := JS.trimStart s) in *.
  set (u := JS.trimStart (rev t)) in *.
  assert (Et : t = rev u ++ rev kcab).
  { rewrite <- (rev_involutive t), Er, rev_app_distr. reflexivity. }
  split.
  - exists front, (rev kcab). repeat split; [congruence | exact Hf |].
    unfold Flow.blank in *. now rewrite forallb_rev_iff.
  - split.
    + intros c rest E.
      destruct (trimStart_head s) as [E0|[c0 [rest0 [E0 Hc0]]]]; fold t in E0.
      * rewrite E0 in Et. rewrite E in Et. discriminate.
      * rewrite E0, E in Et. simpl in Et. congruence.
    + intros c front' E.
      destruct (trimStart_head (rev t)) as [E0|[c0 [rest0 [E0 Hc0]]]]; fold u in E0.
      * rewrite E0 in E. simpl in E. destruct front'; discriminate.
      * rewrite E0 in E. simpl in E.
        assert (E' : rev (rev rest0 ++ [c0]) = rev (front' ++ [c])) by congruence.
        rewrite !rev_app_distr in E'. simpl in E'. congruence.
Qed.

Lemma trim_fixed (s : jsstring) : Flow.trimmed s -> JS.trim s = s.
Proof.
  intros [Hhead Hlast]. unfold JS.trim, JS.trimEnd.
  rewrite (trimStart_fixed s Hhead).
  rewrite trimStart_fixed; [apply rev_involutive|].
  intros c rest E. apply (Hlast c (rev rest)).
  rewrite <- (rev_involutive s), E. reflexivity.
Qed.

(** Property X16.
    Every message the view sends carries text that is not empty and has no
    white space at either end: it is the input with the white space around
    it removed, and trimming it again changes nothing. *)
Theorem sent_text_is_trimmed :
  forall (ans : SendAnswer) (u : option uuid) (s : State) (d : Store.t),
    let r := handleSendMessage ans u s d in
    forall m, In m (Store.messages (snd (fst r))) ->
      In m (Store.messages d)
      \/ (Message.text m <> []
          /\ Flow.trimmed (Message.text m)
          /\ JS.trim (Message.text m) = Message.text m
          /\ exists front back,
               inputValue s = front ++ Message.text m ++ back
               /\ Flow.blank front /\ Flow.blank back).
Proof.
  intros ans u s d r m. subst r. unfold handleSendMessage.
  destruct (JS.truthy (JS.trim (inputValue s))) eqn:T; cbn [negb]; [|now left].
  destruct (selectedConversation s) as [selected|]; [|now left].
  destruct u as [me|]; [|now left].
  destruct (negb (JS.truthy_id (Some me))); [now left|].
  destruct (insertError ans); [now left|].
  simpl. intros Hin. apply in_app_or in Hin.
  destruct Hin as [Hin|[<-|[]]]; [now left|]. right. simpl.
  destruct (trim_spec (inputValue s)) as [Hsplit Htrimmed].
  repeat split; try exact (proj1 Htrimmed); try exact (proj2 Htrimmed).
  - intros E. rewrite E in T. discriminate.
  - now apply trim_fixed.
  - exact Hsplit.
Qed.

Lemma sent_text_is_trimmed_witness :
  Flow.trimmed (utf16 "hello")
  /\ exists front back,
       utf16 "  hello " = front ++ utf16 "hello" ++ back
       /\ Flow.blank front /\ Flow.blank back.
Proof.
  destruct (sent_text_is_trimmed (Sample.accepts "m9" 900) (Some Sample.alice)
              (Sample.typed (utf16 "  hello ")) Sample.empty_db
              (Message.mk "m9" 900 "c3" Sample.alice (utf16 "hello"))
              (or_introl eq_refl))
    as [[]|[_ [Ht [_ Hs]]]].
  split; [exact Ht | exact Hs].
Defined.

(** Property X17.
    Pressing Enter twice sends once: whatever the first call did, a second
    call right after it sends nothing and changes nothing, because a call
    that sends clears the input. *)
Theorem send_twice_sends_once :
  forall (ans ans' : SendAnswer) (u : option uuid) (s : State) (d : Store.t),
    let r := handleSendMessage ans u s d in
    handleSendMessage ans' u (fst (fst r)) (snd (fst r))
    = (fst (fst r), snd (fst r), []).
Proof.
  intros ans ans' u s d r. subst r. unfold handleSendMessage at 2 3 4 5.
  destruct (JS.truthy (JS.trim (inputValue s))) eqn:T; cbn [negb].
  - destruct (selectedConversation s) as [selected|] eqn:Hsel.
    + destruct u as [me|].
      * destruct (JS.truthy_id (Some me)) eqn:Hme; cbn [negb].
        -- destruct (insertError ans); reflexivity.
        -- unfold handleSendMessage. cbn [fst snd]. rewrite T, Hsel, Hme.
           reflexivity.
      * unfold handleSendMessage. cbn [fst snd]. rewrite T, Hsel. reflexivity.
    + unfold handleSendMessage. cbn [fst snd]. rewrite T, Hsel. reflexivity.
  - unfold handleSendMessage. cbn [fst snd]. rewrite T. reflexivity.
Qed.

End SendMore.

(** ** Names of the chats *)

Section ProfilesFacts.

Import Profiles.

Variable toUpperCase : jsstring -> jsstring.

Lemma lookup_assign_same (k : uuid) (v : jsstring) (m : Cache) :
  lookup k (assign k v m) = Some v.
Proof. unfold lookup, assign. simpl. now rewrite String.eqb_refl. Qed.

Lemma lookup_assign_other (k k' : uuid) (v : jsstring) (m : Cache) :
  k' <> k -> lookup k' (assign k v m) = lookup k' m.
Proof.
  intros Hne. unfold lookup, assign. simpl.
  assert (E : (k =? k')%string = false) by (apply String.eqb_neq; congruence).
  rewrite E. f_equal. apply find_filter_implied.
  intros [key value]. simpl. intros H. apply String.eqb_eq in H. subst key.
  apply negb_true_iff. apply String.eqb_neq. exact Hne.
Qed.

Lemma student_not_empty (userId : uuid) :
  truthy (Some (student toUpperCase userId)) = true.
Proof. reflexivity. Qed.

Lemma identity_not_empty (userId : uuid) (p : Profile) :
  truthy (Some (identity_of toUpperCase userId p)) = true.
Proof.
  unfold identity_of.
  destruct (truthy (full_name p)) eqn:F.
  - destruct (full_name p) as [[|c l]|]; try discriminate. reflexivity.
  - destruct (truthy (username p)); reflexivity.
Qed.

(** The name an answer gives to the user. *)
Lemma name_after_answer (ans : Answer) (userId : uuid) (c : Caches) :
  userId <> ""%string ->
  ans <> Thrown ->
  lookup userId (userNames (fetchAndCacheUserProfile toUpperCase ans userId c))
  = Some (match ans with
          | Found p => identity_of toUpperCase userId p
          | _ => student toUpperCase userId
          end).
Proof.
  intros Hid Hans. unfold fetchAndCacheUserProfile.
  apply String.eqb_neq in Hid. rewrite Hid.
  destruct ans as [p| |]; [| |congruence].
  - destruct (truthy (avatar_url p)); simpl; apply lookup_assign_same.
  - simpl. apply lookup_assign_same.
Qed.

Lemma others_after_answer (ans : Answer) (userId other : uuid) (c : Caches) :
  other <> userId ->
  lookup other (userNames (fetchAndCacheUserProfile toUpperCase ans userId c))
  = lookup other (userNames c)
  /\ lookup other (userAvatars (fetchAndCacheUserProfile toUpperCase ans userId c))
     = lookup other (userAvatars c).
Proof.
  intros Hne. unfold fetchAndCacheUserProfile.
  destruct (userId =? "")%string; [split; reflexivity|].
  destruct ans as [p| |]; [| |split; reflexivity].
  - destruct (truthy (avatar_url p)); simpl; split;
      try reflexivity; now apply lookup_assign_other.
  - simpl. split; [now apply lookup_assign_other | reflexivity].
Qed.

(** Property X18.
    Once the answer to a profile look-up is processed, the chat of that
    user shows a name that is not empty: the full name, else the user name
    behind an at sign, else "Student" with the start of the id; a stored
    avatar replaces the generated one; and the names and avatars of all
    other users are as before. *)
Theorem profile_answer_names_the_user :
  forall (ans : Answer) (userId : uuid) (c : Caches),
    userId <> ""%string ->
    ans <> Thrown ->
    let c' := fetchAndCacheUserProfile toUpperCase ans userId c in
    named userId c'
    /\ getUserDisplayName userId c'
       = match ans with
         | Found p => identity_of toUpperCase userId p
         | _ => student toUpperCase userId
         end
    /\ (forall p, ans = Found p -> truthy (avatar_url p) = true ->
          getAvatar userId c' = text_of (avatar_url p))
    /\ (forall other, other <> userId ->
          getUserDisplayName other c' = getUserDisplayName other c
          /\ getAvatar other c' = getAvatar other c).
Proof.
  intros ans userId c Hid Hans c'.
  pose proof (name_after_answer ans userId c Hid Hans) as Hname. fold c' in Hname.
  assert (Htruthy : truthy (lookup userId (userNames c')) = true).
  { rewrite Hname. destruct ans as [p| |]; [apply identity_not_empty | | congruence].
    apply student_not_empty. }
  split; [exact Htruthy|]. split; [|split].
  - unfold getUserDisplayName. rewrite Htruthy, Hname. reflexivity.
  - intros p -> Hav. subst c'. unfold getAvatar, fetchAndCacheUserProfile.
    apply String.eqb_neq in Hid. rewrite Hid. cbv iota beta zeta. rewrite Hav.
    cbn [userAvatars]. rewrite lookup_assign_same.
    destruct (avatar_url p) as [[|ch l]|]; try discriminate. reflexivity.
  - intros other Hne.
    destruct (others_after_answer ans userId other c Hne) as [Hn Ha].
    fold c' in Hn, Ha. unfold getUserDisplayName, getAvatar.
    rewrite Hn, Ha. split; reflexivity.
Qed.

Lemma cache_profiles_untouched (answers : uuid -> Answer)
      (arrivals : list Conversation.t) (c : Caches) (k : uuid) :
  ~ In k (map Conversation.other_user_id arrivals) ->
  lookup k (userNames (cache_profiles toUpperCase answers arrivals c))
  = lookup k (userNames c).
Proof.
  unfold cache_profiles. revert c.
  induction arrivals as [|conv arrivals IH]; intros c Hout; simpl; [reflexivity|].
  rewrite IH by (intros H; apply Hout; now right).
  apply others_after_answer. intros E. apply Hout. left. now symmetry.
Qed.

Lemma cache_profiles_names (answers : uuid -> Answer)
      (arrivals : list Conversation.t) (c : Caches) (conv : Conversation.t) :
  NoDup (map Conversation.other_user_id arrivals) ->
  In conv arrivals ->
  Conversation.other_user_id conv <> ""%string ->
  answers (Conversation.other_user_id conv) <> Thrown ->
  lookup (Conversation.other_user_id conv)
         (userNames (cache_profiles toUpperCase answers arrivals c))
  = Some (match answers (Conversation.other_user_id conv) with
          | Found p => identity_of toUpperCase (Conversation.other_user_id conv) p
          | _ => student toUpperCase (Conversation.other_user_id conv)
          end).
Proof.
  revert c. induction arrivals as [|conv0 arrivals IH]; intros c Hnd Hin Hid Hans;
    [destruct Hin|].
  inversion Hnd as [|? ? Hout Hnd']; subst.
  destruct Hin as [->|Hin].
  - unfold cache_profiles. simpl.
    fold (cache_profiles toUpperCase answers arrivals
            (fetchAndCacheUserProfile toUpperCase
               (answers (Conversation.other_user_id conv))
               (Conversation.other_user_id conv) c)).
    rewrite cache_profiles_untouched by exact Hout.
    now apply name_after_answer.
  - unfold cache_profiles. simpl. now apply IH.
Qed.

(** Property X19.
    After the list has arrived and the profile look-ups it starts have
    been answered, in whatever order, every listed chat shows the name
    its own answer gives, none the placeholder; no answer overwrites the
    name of another chat. *)
Theorem listed_chats_get_their_names :
  forall (answers : uuid -> Answer) (u : uuid) (tbl : list ConvRow.t)
         (s : Messages.State) (arrivals : list Conversation.t) (c : Caches),
    let shown :=
      Messages.conversations (fst (Messages.fetchConversations None u tbl s)) in
    Permutation arrivals shown ->
    (forall conv, In conv shown ->
       Conversation.other_user_id conv <> ""%string
       /\ answers (Conversation.other_user_id conv) <> Thrown) ->
    forall conv, In conv shown ->
      let c' := cache_profiles toUpperCase answers arrivals c in
      named (Conversation.other_user_id conv) c'
      /\ getUserDisplayName (Conversation.other_user_id conv) c'
         = match answers (Conversation.other_user_id conv) with
           | Found p =>
               identity_of toUpperCase (Conversation.other_user_id conv) p
           | _ => student toUpperCase (Conversation.other_user_id conv)
           end.
Proof.
  intros answers u tbl s arrivals c shown P Hok conv Hin c'.
  destruct (Hok conv Hin) as [Hid Hans].
  assert (Hnd : NoDup (map Conversation.other_user_id arrivals)).
  { eapply Permutation_NoDup; [apply Permutation_sym, Permutation_map, P|].
    apply (fold_group_one_per_user u
             (Store.select_conversations_newest_first u tbl) []). constructor. }
  assert (Hname := cache_profiles_names answers arrivals c conv Hnd
                     (Permutation_in _ (Permutation_sym P) Hin) Hid Hans).
  fold c' in Hname.
  assert (Htruthy : truthy (lookup (Conversation.other_user_id conv) (userNames c'))
                    = true).
  { rewrite Hname. destruct (answers (Conversation.other_user_id conv));
      [apply identity_not_empty | apply student_not_empty | congruence]. }
  split; [exact Htruthy|].
  unfold getUserDisplayName. rewrite Htruthy, Hname. reflexivity.
Qed.

End ProfilesFacts.

Section ProfilesSamples.

Import Profiles.

Lemma profile_answer_names_the_user_witness :
  getUserDisplayName Sample.bob
    (fetchAndCacheUserProfile (fun s => s)
       (Found (mkProfile None None (Some (utf16 "bobby"))))
       Sample.bob (mkCaches [] []))
  = utf16 "@bobby".
Proof.
  apply (profile_answer_names_the_user (fun s => s)
           (Found (mkProfile None None (Some (utf16 "bobby"))))
           Sample.bob (mkCaches [] [])); discriminate.
Defined.

Lemma listed_chats_get_their_names_witness :
  named Sample.carol
    (cache_profiles (fun s => s) (fun _ => Missing)
       (rev (Messages.conversations
               (fst (Messages.fetchConversations None Sample.alice
                       Sample.rows_of_alice (Messages.view Sample.chat_open)))))
       (mkCaches [] [])).
Proof.
  refine (proj1 (listed_chats_get_their_names (fun s => s) (fun _ => Missing)
                   Sample.alice Sample.rows_of_alice
                   (Messages.view Sample.chat_open)
                   (rev (Messages.conversations
                           (fst (Messages.fetchConversations None Sample.alice
                                   Sample.rows_of_alice
                                   (Messages.view Sample.chat_open)))))
                   (mkCaches [] []) _ _
                   (Conversation.spread Sample.c1 Sample.carol) _)).
  - apply Permutation_sym, Permutation_rev.
  - intros conv [<-|[<-|[]]]; split; discriminate.
  - right. now left.
Defined.

End ProfilesSamples.

(** ** App: the unread badge *)

Section AppFacts.

Import App.

(** Property X21.
    The unread badge counts incoming messages only.  A notification
    changes nothing but the count, and raises it, by one, only for a
    message from someone else in a conversation the user takes part in,
    received while another tab was in front.  So a message a user sends
    from the Messages view never raises that user's own badge; and the
    badge is back at zero whenever the Messages tab comes in front. *)
Theorem badge_counts_incoming_only :
  forall (s : State) (captured : Tab) (m : Message.t) (tbl : list ConvRow.t),
    let s' := step (Notified captured m tbl) s in
    (setUnreadCount (unreadCount s) s' = s)
    /\ (unreadCount s' = unreadCount s
        \/ (unreadCount s' = unreadCount s + 1
            /\ captured <> MESSAGES
            /\ exists me conv,
                 session s = Some me
                 /\ Message.sender_id m <> me
                 /\ In conv tbl
                 /\ ConvRow.id conv = Message.conversation_id m
                 /\ (ConvRow.buyer_id conv = me \/ ConvRow.seller_id conv = me)))
    /\ (forall ans view d sent,
          In sent (Store.messages
                     (snd (fst (Messages.handleSendMessage ans (session s) view d)))) ->
          ~ In sent (Store.messages d) ->
          step (Notified captured sent tbl) s = s)
    /\ (forall convId, activeTab s <> MESSAGES ->
          unreadCount (onTabChange MESSAGES s) = 0
          /\ unreadCount (onMessage convId s) = 0).
Proof.
  intros s captured m tbl s'. split; [|split; [|split]].
  - subst s'. destruct s as [ses tab item open unread]. unfold step.
    cbn [session unreadCount].
    destruct ses as [me|]; [|reflexivity].
    destruct (JS.truthy_id (Some me)); [|reflexivity].
    unfold on_notification. simpl.
    destruct (negb (Message.sender_id m =? me)%string); [|reflexivity].
    destruct (Favorites.single _) as [conv|]; [|reflexivity].
    destruct ((ConvRow.buyer_id conv =? me)%string || _); [|reflexivity].
    destruct (negb (is_messages captured)); reflexivity.
  - subst s'. unfold step.
    destruct (session s) as [me|] eqn:Hses; [|now left].
    destruct (JS.truthy_id (Some me)); [|now left].
    unfold on_notification.
    destruct (negb (Message.sender_id m =? me)%string) eqn:Hsender; [|now left].
    destruct (Favorites.single _) as [conv|] eqn:Hsingle; [|now left].
    destruct ((ConvRow.buyer_id conv =? me)%string || _) eqn:Hpart; [|now left].
    destruct (negb (is_messages captured)) eqn:Hcap; [|now left].
    right. split; [reflexivity|]. split.
    + intros ->. discriminate.
    + exists me, conv. split; [reflexivity|].
      apply negb_true_iff, String.eqb_neq in Hsender.
      apply orb_true_iff in Hpart. rewrite !String.eqb_eq in Hpart.
      assert (Hin : In conv (filter (fun c => (ConvRow.id c =? Message.conversation_id m)%string) tbl)).
      { unfold Favorites.single in Hsingle.
        destruct (filter _ tbl) as [|x [|y l]]; try discriminate.
        injection Hsingle as ->. now left. }
      apply filter_In in Hin. destruct Hin as [Hin Hid].
      apply String.eqb_eq in Hid. tauto.
  - intros ans view d sent Hin Hnew.
    assert (Hsender : exists me, session s = Some me /\ Message.sender_id sent = me).
    { unfold Messages.handleSendMessage in Hin.
      destruct (negb (JS.truthy _)); [contradiction|].
      destruct (Messages.selectedConversation view); [|contradiction].
      destruct (session s) as [me|]; [|contradiction].
      destruct (negb (JS.truthy_id (Some me))); [contradiction|].
      destruct (Messages.insertError ans); [contradiction|].
      simpl in Hin. apply in_app_or in Hin.
      destruct Hin as [Hin|[<-|[]]]; [contradiction|].
      exists me. split; reflexivity. }
    destruct Hsender as [me [Hses Hme]].
    unfold step. rewrite Hses.
    destruct (JS.truthy_id (Some me)); [|reflexivity].
    unfold on_notification. rewrite Hme, String.eqb_refl. reflexivity.
  - intros convId Hnot. destruct s as [ses tb item open unread]. simpl in *.
    unfold onTabChange, onMessage, setActiveTab. simpl.
    destruct tb; try congruence; split; reflexivity.
Qed.

Lemma badge_counts_incoming_only_witness :
  unreadCount
    (step (Notified HOME Sample.hi [Sample.c3])
          (mkState (Some Sample.alice) HOME None None 0)) = 1
  /\ step (Notified HOME Sample.hello [Sample.c3])
          (mkState (Some Sample.alice) HOME None None 0)
     = mkState (Some Sample.alice) HOME None None 0.
Proof.
  split; [reflexivity|].
  destruct (badge_counts_incoming_only
              (mkState (Some Sample.alice) HOME None None 0)
              HOME Sample.hello [Sample.c3]) as [_ [_ [H _]]].
  apply (H (Sample.accepts "m1" 100)
           (Messages.setInputValue (utf16 "hello") (Messages.view Sample.chat_open))
           Sample.empty_db Sample.hello).
  - now left.
  - intros [].
Defined.

End AppFacts.

(** ** Provisioning the profile *)

Section ProvisionFacts.

Import Provision.

Variable toLowerCase : jsstring -> jsstring.

Lemma or_text_not_empty (a : option jsstring) (b : jsstring) :
  b <> [] -> or_text a b <> [].
Proof.
  intros Hb. unfold or_text.
  destruct a as [[|c l]|]; simpl; try exact Hb. discriminate.
Qed.

Lemma utf16_app (a b : string) : utf16 (a ++ b) = utf16 a ++ utf16 b.
Proof.
  unfold utf16. induction a as [|c a IH]; simpl; [reflexivity|]. now f_equal.
Qed.

Lemma names_not_empty (user : User) :
  fullName user <> []
  /\ userName toLowerCase user <> []
  /\ avatarUrl user <> [].
Proof.
  unfold fullName, userName, avatarUrl. repeat split.
  - apply or_text_not_empty, or_text_not_empty. discriminate.
  - apply or_text_not_empty, or_text_not_empty. discriminate.
  - apply or_text_not_empty. rewrite utf16_app. discriminate.
Qed.

Lemma in_class_range (c : N) :
  in_class c = true <-> (48 <= c <= 122)%N.
Proof.
  unfold in_class.
  rewrite !orb_true_iff, !andb_true_iff, !N.leb_le. lia.
Qed.

(** Property X22.
    A profile that exists is never overwritten, and a failed look-up never
    leads to a write: unless the look-up is served and finds no row for
    the user, the table is left as it is and no upsert is sent; with
    exactly one row found, the avatar shown is the stored one. *)
Theorem existing_profile_is_never_overwritten :
  forall (looked_up upserted : Favorites.Outcome) (now : jsstring)
         (user : User) (userAvatar0 : option jsstring) (tbl : list Row),
    filter (fun r => (id r =? user_id user)%string) tbl <> []
    \/ looked_up <> Favorites.Served ->
    let r := ensureProfileExists toLowerCase looked_up upserted now user
                                 userAvatar0 tbl in
    profiles r = tbl
    /\ filter is_upsert (requests r) = []
    /\ (forall profile,
          looked_up = Favorites.Served ->
          filter (fun r => (id r =? user_id user)%string) tbl = [profile] ->
          userAvatar r = avatar_url profile).
Proof.
  intros looked_up upserted now user av tbl H r. subst r.
  unfold ensureProfileExists.
  destruct looked_up.
  - destruct H as [H|H]; [|congruence].
    destruct (filter _ tbl) as [|p [|q l]] eqn:F; [congruence | |].
    + repeat split. intros profile _ E. now injection E as <-.
    + repeat split. intros profile _ E. discriminate.
  - repeat split. intros profile E. discriminate.
  - repeat split. intros profile E. discriminate.
Qed.

Lemma filter_id_snoc (row : Row) (tbl : list Row) :
  filter (fun r => (id r =? id row)%string) tbl = [] ->
  filter (fun r => (id r =? id row)%string) (tbl ++ [row]) = [row]
  /\ upsert row tbl = tbl ++ [row].
Proof.
  intros F. split.
  - rewrite filter_app, F. simpl. now rewrite String.eqb_refl.
  - unfold upsert.
    assert (E : existsb (fun r => (id r =? id row)%string) tbl = false).
    { apply not_true_is_false. intros E. apply existsb_exists in E.
      destruct E as [x [Hin Hx]].
      assert (In x (filter (fun r => (id r =? id row)%string) tbl))
        by (apply filter_In; tauto).
      rewrite F in H. destruct H. }
    now rewrite E.
Qed.

(** Property X23.
    A missing profile is provisioned once.  When the store has no row for
    the user and serves both requests, one row is appended, carrying a
    full name, a user name and an avatar that are not empty, and the
    avatar is shown; running the function again finds that row, sends no
    upsert, leaves the table as it is and shows the same avatar. *)
Theorem missing_profile_is_provisioned_once :
  forall (now now' : jsstring) (upserted' : Favorites.Outcome) (user : User)
         (userAvatar0 : option jsstring) (tbl : list Row),
    filter (fun r => (id r =? user_id user)%string) tbl = [] ->
    let r1 := ensureProfileExists toLowerCase Favorites.Served Favorites.Served
                                  now user userAvatar0 tbl in
    let r2 := ensureProfileExists toLowerCase Favorites.Served upserted'
                                  now' user (userAvatar r1) (profiles r1) in
    (exists row,
       profiles r1 = tbl ++ [row]
       /\ id row = user_id user
       /\ Profiles.truthy (full_name row) = true
       /\ Profiles.truthy (username row) = true
       /\ Profiles.truthy (avatar_url row) = true
       /\ userAvatar r1 = avatar_url row)
    /\ profiles r2 = profiles r1
    /\ filter is_upsert (requests r2) = []
    /\ userAvatar r2 = userAvatar r1.
Proof.
  intros now now' upserted' user av tbl F r1 r2.
  set (row := mkRow (user_id user) (Some (fullName user))
                    (Some (userName toLowerCase user)) (Some (avatarUrl user))
                    (Some now)).
  assert (E1 : r1 = mkResult (upsert row tbl) (Some (avatarUrl user))
                             [SelectProfile (user_id user); UpsertProfile row]).
  { subst r1. unfold ensureProfileExists. rewrite F. reflexivity. }
  destruct (filter_id_snoc row tbl F) as [Fsnoc Eup].
  rewrite Eup in E1.
  assert (E2 : r2 = mkResult (tbl ++ [row]) (Some (avatarUrl user))
                             [SelectProfile (user_id user)]).
  { subst r2. rewrite E1. unfold ensureProfileExists. simpl profiles.
    change (user_id user) with (id row) at 1. rewrite Fsnoc. reflexivity. }
  rewrite E2, E1. simpl. split; [|repeat split].
  destruct (names_not_empty user) as [Hf [Hu Ha]].
  exists row. simpl. repeat split.
  - destruct (fullName user); [congruence | reflexivity].
  - destruct (userName toLowerCase user); [congruence | reflexivity].
  - destruct (avatarUrl user); [congruence | reflexivity].
Qed.

(** Property X24.
    The names a profile is provisioned with: the full name, the user name
    and the avatar address are never empty; and a user name derived from
    the e-mail address (no user name in the metadata, something left of
    the local part) is the lower-cased part before the at sign with every
    code unit outside '0'..'z' removed, so it holds no dot, hyphen or plus
    sign. *)
Theorem provisioned_names :
  forall (user : User),
    fullName user <> []
    /\ userName toLowerCase user <> []
    /\ avatarUrl user <> []
    /\ (forall e,
          Profiles.truthy (meta user meta_username) = false ->
          email user = Some e ->
          strip (toLowerCase (before_at e)) <> [] ->
          userName toLowerCase user = strip (toLowerCase (before_at e))
          /\ Forall (fun c => (48 <= c <= 122)%N) (userName toLowerCase user)
          /\ ~ In 46%N (userName toLowerCase user)
          /\ ~ In 45%N (userName toLowerCase user)
          /\ ~ In 43%N (userName toLowerCase user)).
Proof.
  intros user. destruct (names_not_empty user) as [Hf [Hu Ha]].
  split; [exact Hf|]. split; [exact Hu|]. split; [exact Ha|].
  intros e Hmeta Hemail Hleft.
  assert (E : userName toLowerCase user = strip (toLowerCase (before_at e))).
  { unfold userName, or_text at 1. rewrite Hmeta, Hemail. simpl option_map.
    unfold or_text.
    destruct (strip (toLowerCase (before_at e))); [congruence | reflexivity]. }
  rewrite E. split; [reflexivity|]. split; [|split; [|split]].
  - apply Forall_forall. intros c Hc. apply filter_In in Hc.
    now apply in_class_range.
  - intros Hc. apply filter_In in Hc. destruct Hc as [_ Hc]. discriminate.
  - intros Hc. apply filter_In in Hc. destruct Hc as [_ Hc]. discriminate.
  - intros Hc. apply filter_In in Hc. destruct Hc as [_ Hc]. discriminate.
Qed.

End ProvisionFacts.

Section ProvisionSamples.

Import Provision.

Lemma existing_profile_is_never_overwritten_witness :
  profiles
    (ensureProfileExists (fun s => s) Favorites.Served Favorites.Served
       (utf16 "2026-01-01T00:00:00.000Z")
       (mkUser Sample.bob (Some (utf16 "bob@utdallas.edu")) None) None
       [mkRow Sample.bob (Some (utf16 "Bob")) None None None])
  = [mkRow Sample.bob (Some (utf16 "Bob")) None None None].
Proof.
  apply (existing_profile_is_never_overwritten (fun s => s)
           Favorites.Served Favorites.Served
           (utf16 "2026-01-01T00:00:00.000Z")
           (mkUser Sample.bob (Some (utf16 "bob@utdallas.edu")) None) None
           [mkRow Sample.bob (Some (utf16 "Bob")) None None None]).
  left. discriminate.
Defined.

Lemma missing_profile_is_provisioned_once_witness :
  profiles
    (ensureProfileExists (fun s => s) Favorites.Served Favorites.Served
       (utf16 "2026-01-02T00:00:00.000Z")
       (mkUser Sample.bob (Some (utf16 "bob.b@utdallas.edu")) None)
       (userAvatar
          (ensureProfileExists (fun s => s) Favorites.Served Favorites.Served
             (utf16 "2026-01-01T00:00:00.000Z")
             (mkUser Sample.bob (Some (utf16 "bob.b@utdallas.edu")) None)
             None []))
       (profiles
          (ensureProfileExists (fun s => s) Favorites.Served Favorites.Served
             (utf16 "2026-01-01T00:00:00.000Z")
             (mkUser Sample.bob (Some (utf16 "bob.b@utdallas.edu")) None)
             None [])))
  = profiles
      (ensureProfileExists (fun s => s) Favorites.Served Favorites.Served
         (utf16 "2026-01-01T00:00:00.000Z")
         (mkUser Sample.bob (Some (utf16 "bob.b@utdallas.edu")) None)
         None []).
Proof.
  apply (missing_profile_is_provisioned_once (fun s => s)
           (utf16 "2026-01-01T00:00:00.000Z") (utf16 "2026-01-02T00:00:00.000Z")
           Favorites.Served
           (mkUser Sample.bob (Some (utf16 "bob.b@utdallas.edu")) None)
           None []).
  reflexivity.
Defined.

Lemma provisioned_names_witness :
  userName (fun s => s)
           (mkUser Sample.bob (Some (utf16 "bob.b_1+x@utdallas.edu")) None)
  = utf16 "bobb_1x".
Proof.
  destruct (provisioned_names (fun s => s)
              (mkUser Sample.bob (Some (utf16 "bob.b_1+x@utdallas.edu")) None))
    as [_ [_ [_ H]]].
  destruct (H (utf16 "bob.b_1+x@utdallas.edu") eq_refl eq_refl
              ltac:(discriminate)) as [E _].
  rewrite E. reflexivity.
Defined.

End ProvisionSamples.
